(** * RAG File Search: session controller and markdown renderer

  A shallow embedding of the two parts of the application that carry
  logic: [renderMarkdown] of the chat interface component, and the state
  handlers of the [App] component ([checkApiKey],
  [handleUploadAndStartChat], [handleSendMessage], [handleEndChat],
  [handleUnload], [handleError], [clearError]) together with
  [handleConfirmUpload] of the welcome screen.

  Strings are sequences of code units; the model keeps the code units
  below 256, which is where every character class used by the source
  (markers, digits, white space, line terminators) lives. *)

From Stdlib Require Import String Ascii List Bool Arith NArith Lia.
From Stdlib Require Import Decimal DecimalString.
Import ListNotations.

Local Open Scope list_scope.
Local Open Scope string_scope.

(* ===================================================================== *)
(** * Strings as the source uses them *)
(* ===================================================================== *)

Module Str.

(** Line feed and carriage return. *)
Definition LF : ascii := "010"%char.
Definition CR : ascii := "013"%char.

(** What [.] of a regular expression refuses: a line terminator. *)
Definition is_line_terminator (c : ascii) : bool :=
  Ascii.eqb c LF || Ascii.eqb c CR.

(** [\s] of a regular expression and the characters [trim] removes:
    tab, line feed, vertical tab, form feed, carriage return, space and
    the no-break space. *)
Definition is_space (c : ascii) : bool :=
  let n := nat_of_ascii c in
  ((9 <=? n) && (n <=? 13) || (n =? 32) || (n =? 160))%nat.

(** The double quote, for the attribute values of the markup. *)
Definition dq : string := String "034"%char EmptyString.

(** [\d]. *)
Definition is_digit (c : ascii) : bool :=
  let n := nat_of_ascii c in ((48 <=? n) && (n <=? 57))%nat.

Fixpoint drop (n : nat) (s : string) : string :=
  match n, s with
  | 0, _ => s
  | S _, EmptyString => EmptyString
  | S k, String _ s' => drop k s'
  end.

Fixpoint forallb (p : ascii -> bool) (s : string) : bool :=
  match s with
  | EmptyString => true
  | String c s' => p c && forallb p s'
  end.

Fixpoint take_while (p : ascii -> bool) (s : string) : string :=
  match s with
  | EmptyString => EmptyString
  | String c s' => if p c then String c (take_while p s') else EmptyString
  end.

Fixpoint drop_while (p : ascii -> bool) (s : string) : string :=
  match s with
  | EmptyString => EmptyString
  | String c s' => if p c then drop_while p s' else s
  end.

(** [s.split('\n')]: the pieces between line feeds, at least one. *)
Fixpoint split_lines (s : string) : list string :=
  match s with
  | EmptyString => [EmptyString]
  | String c s' =>
      if Ascii.eqb c LF then EmptyString :: split_lines s'
      else match split_lines s' with
           | l :: ls => String c l :: ls
           | [] => [String c EmptyString]
           end
  end.

(** [s.includes(t)]. *)
Fixpoint includes (s t : string) : bool :=
  String.prefix t s ||
  match s with
  | EmptyString => false
  | String _ s' => includes s' t
  end.

(** [s.toLowerCase()] on the code units the model keeps: the letters
    [A]..[Z] and the capital letters of the upper half (192 to 222, the
    multiplication sign 215 apart) move up by 32. *)
Definition lower_char (c : ascii) : ascii :=
  let n := nat_of_ascii c in
  if ((65 <=? n) && (n <=? 90)
      || (192 <=? n) && (n <=? 222) && negb (n =? 215))%nat
  then ascii_of_nat (n + 32) else c.

Fixpoint toLowerCase (s : string) : string :=
  match s with
  | EmptyString => EmptyString
  | String c s' => String (lower_char c) (toLowerCase s')
  end.

(** [s.trim() === '']. *)
Definition is_blank (s : string) : bool := forallb is_space s.

(** A number in a template literal: its decimal digits. *)
Definition of_nat (n : nat) : string :=
  NilEmpty.string_of_uint (Nat.to_uint n).

Definition of_N (n : N) : string :=
  NilEmpty.string_of_uint (N.to_uint n).

End Str.

(* ===================================================================== *)
(** * The markdown renderer ([renderMarkdown]) *)
(* ===================================================================== *)

Module Markdown.
Import Str.

(** ** Regular-expression replacement

    A matcher looks for a match that starts at the head of its argument
    and answers with the replacement text and the number of code units
    the match covers.  [replace_from] is [String.prototype.replace] with
    a global pattern: it walks the string from the left, copies what
    does not match, and after a match carries on behind it ([skip]
    counts the code units of the last match still to pass over).  A
    match of length zero is followed by the copy of one code unit. *)

Definition matcher := string -> option (string * nat).

Fixpoint replace_from (m : matcher) (skip : nat) (s : string) : string :=
  match s with
  | EmptyString =>
      match skip with
      | 0 => match m EmptyString with
             | Some (out, _) => out
             | None => EmptyString
             end
      | S _ => EmptyString
      end
  | String c s' =>
      match skip with
      | S k => replace_from m k s'
      | 0 =>
          match m s with
          | Some (out, 0) => out ++ String c (replace_from m 0 s')
          | Some (out, S k) => out ++ replace_from m k s'
          | None => String c (replace_from m 0 s')
          end
      end
  end.

Definition replace_all (m : matcher) (s : string) : string :=
  replace_from m 0 s.

(** The lazy [(.*?)] followed by the closing marker: the shortest run of
    characters other than line terminators after which the marker
    stands.  The answer is the captured run and the count of code units
    covered, marker included. *)
Fixpoint lazy_dots (close : string) (s : string) : option (string * nat) :=
  if String.prefix close s then Some (EmptyString, String.length close)
  else match s with
       | EmptyString => None
       | String c s' =>
           if is_line_terminator c then None
           else match lazy_dots close s' with
                | Some (cap, n) => Some (String c cap, S n)
                | None => None
                end
       end.

(** [open(.*?)close] at the head of [s]. *)
Definition span_at (open close : string) (s : string)
  : option (string * nat) :=
  if String.prefix open s then
    match lazy_dots close (drop (String.length open) s) with
    | Some (cap, n) => Some (cap, String.length open + n)
    | None => None
    end
  else None.

(** An alternation [a|b]: the left branch first. *)
Definition alt (a b : string -> option (string * nat)) (s : string)
  : option (string * nat) :=
  match a s with
  | Some r => Some r
  | None => b s
  end.

(** The replacement template [pre$1$2post]: of the two groups one took
    part in the match and the other one is empty. *)
Definition wrap (pre post : string) (f : string -> option (string * nat))
  : matcher :=
  fun s => match f s with
           | Some (cap, n) => Some (pre ++ cap ++ post, n)
           | None => None
           end.

(** [/\*\*(.*?)\*\*|__(.*?)__/g] to [<strong>$1$2</strong>]. *)
Definition bold_re : matcher :=
  wrap "<strong>" "</strong>" (alt (span_at "**" "**") (span_at "__" "__")).

(** [/\*(.*?)\*|_(.*?)_/g] to [<em>$1$2</em>]. *)
Definition em_re : matcher :=
  wrap "<em>" "</em>" (alt (span_at "*" "*") (span_at "_" "_")).

Definition tick : ascii := "`"%char.
Definition not_tick (c : ascii) : bool := negb (Ascii.eqb c tick).

(** [/`([^`]+)`/g]: a backtick, one or more characters other than a
    backtick, a backtick. *)
Definition code_at (s : string) : option (string * nat) :=
  match s with
  | String c s' =>
      if Ascii.eqb c tick then
        let run := take_while not_tick s' in
        match run, drop_while not_tick s' with
        | String _ _, String _ _ => Some (run, String.length run + 2)
        | _, _ => None
        end
      else None
  | EmptyString => None
  end.

Definition code_open : string :=
  "<code class=" ++ dq
    ++ "bg-gem-mist/50 px-1 py-0.5 rounded-sm font-mono text-sm text-gem-offwhite"
    ++ dq ++ ">".

Definition code_re : matcher := wrap code_open "</code>" code_at.

(** The three replacements of a raw line, in the order of the source. *)
Definition inline (rawLine : string) : string :=
  replace_all code_re (replace_all em_re (replace_all bold_re rawLine)).

(** ** List lines *)

(** The ordered-list pattern of [isOl], anchored at the start of the
    line: white space, one or more digits, a
    period, one white space, and then group 1, the characters up to the
    first line terminator.  The classes that follow one another are
    disjoint, so the greedy choices are the only ones that can match. *)
Definition match_ol (line : string) : option string :=
  let s1 := drop_while is_space line in
  match take_while is_digit s1, drop_while is_digit s1 with
  | String _ _, String dot (String w rest) =>
      if Ascii.eqb dot "."%char && is_space w
      then Some (take_while (fun c => negb (is_line_terminator c)) rest)
      else None
  | _, _ => None
  end.

(** The unordered-list pattern of [isUl]: white space, a star or a
    hyphen, one white space, and then group 1 as above. *)
Definition match_ul (line : string) : option string :=
  match drop_while is_space line with
  | String b (String w rest) =>
      if (Ascii.eqb b "*"%char || Ascii.eqb b "-"%char) && is_space w
      then Some (take_while (fun c => negb (is_line_terminator c)) rest)
      else None
  | _ => None
  end.

(** ** The pass over the lines *)

Inductive ListType := ul | ol.

Definition ListType_eqb (a b : ListType) : bool :=
  match a, b with
  | ul, ul | ol, ol => true
  | _, _ => false
  end.

Definition tag (t : ListType) : string :=
  match t with ul => "ul" | ol => "ol" end.

(** The three variables the closures of [renderMarkdown] share. *)
Record RenderState := mkRender {
  html : string;
  listType : option ListType;
  paraBuffer : string
}.

Definition render_init : RenderState :=
  {| html := EmptyString; listType := None; paraBuffer := EmptyString |}.

Definition append_html (x : string) (st : RenderState) : RenderState :=
  {| html := html st ++ x; listType := listType st;
     paraBuffer := paraBuffer st |}.

Definition p_open : string := "<p class=" ++ dq ++ "my-2" ++ dq ++ ">".
Definition ol_open : string :=
  "<ol class=" ++ dq ++ "list-decimal list-inside my-2 pl-5 space-y-1" ++ dq ++ ">".
Definition ul_open : string :=
  "<ul class=" ++ dq ++ "list-disc list-inside my-2 pl-5 space-y-1" ++ dq ++ ">".

Definition list_open (t : ListType) : string :=
  match t with ul => ul_open | ol => ol_open end.

Definition flushPara (st : RenderState) : RenderState :=
  match paraBuffer st with
  | EmptyString => st
  | String _ _ =>
      {| html := html st ++ p_open ++ paraBuffer st ++ "</p>";
         listType := listType st;
         paraBuffer := EmptyString |}
  end.

Definition flushList (st : RenderState) : RenderState :=
  match listType st with
  | Some t =>
      {| html := html st ++ "</" ++ tag t ++ ">";
         listType := None;
         paraBuffer := paraBuffer st |}
  | None => st
  end.

(** A list line of type [t] with item text [item]: both branches of the
    source do the same with their own tag. *)
Definition list_line (t : ListType) (item : string) (st : RenderState)
  : RenderState :=
  let st1 := flushPara st in
  let st2 :=
    if match listType st1 with
       | Some t' => ListType_eqb t' t
       | None => false
       end
    then st1
    else
      let st' := flushList st1 in
      {| html := html st' ++ list_open t;
         listType := Some t;
         paraBuffer := paraBuffer st' |} in
  append_html ("<li>" ++ item ++ "</li>") st2.

(** The body of the loop for one raw line. *)
Definition render_line (st : RenderState) (rawLine : string) : RenderState :=
  let line := inline rawLine in
  match match_ol line with
  | Some item => list_line ol item st
  | None =>
      match match_ul line with
      | Some item => list_line ul item st
      | None =>
          let st1 := flushList st in
          if is_blank line then flushPara st1
          else
            {| html := html st1;
               listType := listType st1;
               paraBuffer :=
                 paraBuffer st1
                 ++ (match paraBuffer st1 with
                     | EmptyString => EmptyString
                     | String _ _ => "<br/>"
                     end)
                 ++ line |}
      end
  end.

Definition render_lines (st : RenderState) (lines : list string)
  : RenderState :=
  fold_left render_line lines st.

(** [renderMarkdown(text).__html]. *)
Definition renderMarkdown (text : string) : string :=
  match text with
  | EmptyString => EmptyString
  | String _ _ =>
      html (flushList (flushPara (render_lines render_init (split_lines text))))
  end.

(** ** Vocabulary of the statements *)

(** The characters the inline patterns start with. *)
Definition marker (c : ascii) : bool :=
  Ascii.eqb c "*"%char || Ascii.eqb c "_"%char || Ascii.eqb c tick.

Definition markerless (s : string) : bool :=
  forallb (fun c => negb (marker c)) s.

(** Free of markers and of line terminators: what a span can hold and
    still come out as it went in. *)
Definition span_text (s : string) : bool :=
  forallb (fun c => negb (marker c) && negb (is_line_terminator c)) s.

(** A line that is neither blank nor a list line and has no marker. *)
Definition plain_line (l : string) : bool :=
  markerless l && negb (is_blank l)
  && match match_ol l, match_ul l with
     | None, None => true
     | _, _ => false
     end.

Definition nl : string := String LF EmptyString.

(** A matcher is quiet when it finds nothing at the end of the input and
    nothing at a character that is not a marker. *)
Definition quiet (m : matcher) : Prop :=
  m EmptyString = None
  /\ forall c s, marker c = false -> m (String c s) = None.

(** While a list is open the paragraph buffer is empty. *)
Definition list_excludes_para (st : RenderState) : Prop :=
  listType st <> None -> paraBuffer st = EmptyString.

(** ** Vocabulary of the statements about blocks *)

(** The two markers of the bold and emphasis patterns. *)
Definition emph_marker (c : ascii) : bool :=
  Ascii.eqb c "*"%char || Ascii.eqb c "_"%char.

Definition no_emph (s : string) : bool :=
  forallb (fun c => negb (emph_marker c)) s.

(** Free of line feeds: what a line of a text is. *)
Definition no_LF (s : string) : bool :=
  forallb (fun c => negb (Ascii.eqb c LF)) s.

Definition li (item : string) : string := "<li>" ++ item ++ "</li>".

Fixpoint items_html (items : list string) : string :=
  match items with
  | [] => EmptyString
  | item :: rest => li item ++ items_html rest
  end.

(** A list block: the opening tag, the items, the closing tag. *)
Definition list_block (t : ListType) (items : list string) : string :=
  list_open t ++ items_html items ++ "</" ++ tag t ++ ">".

(** A paragraph block over the lines it holds. *)
Definition paragraph (lines : list string) : string :=
  p_open ++ String.concat "<br/>" lines ++ "</p>".

(** A line [- item] or [* item]. *)
Definition bullet_line (b : ascii) (item : string) : string :=
  String b (String " "%char item).

(** A line [12. item]. *)
Definition numbered_line (digits item : string) : string :=
  digits ++ ". " ++ item.

Definition is_bullet (b : ascii) : bool :=
  Ascii.eqb b "*"%char || Ascii.eqb b "-"%char.

(** The item a line gives to a list of type [t], if the loop takes the
    line for such a list line: the ordered pattern is tried first. *)
Definition list_item (t : ListType) (rawLine : string) : option string :=
  match t, match_ol (inline rawLine) with
  | ol, r => r
  | ul, Some _ => None
  | ul, None => match_ul (inline rawLine)
  end.

(** What a list line of type [t] puts in front of its item: nothing when
    a list of its type is open, otherwise the closing tag of the open
    list, if any, and its own opening tag. *)
Definition list_switch (open : option ListType) (t : ListType) : string :=
  match open with
  | Some t' =>
      if ListType_eqb t' t then EmptyString
      else "</" ++ tag t' ++ ">" ++ list_open t
  | None => list_open t
  end.

(** The text of lines: the lines with a line feed between them. *)
Definition unlines (lines : list string) : string :=
  String.concat nl lines.

End Markdown.

(* ===================================================================== *)
(** * The session controller (the [App] component) *)
(* ===================================================================== *)

Module App.
Import Str.

(** ** Data *)

(** The members of [AppStatus] the component uses. *)
Inductive AppStatus :=
| Initializing | Welcome | Uploading | Chatting | Error.

(** A selected file: the handlers read its [name] and hand the file on
    as it is. *)
Record File := mkFile { name : string }.

Record UploadProgress := mkProgress {
  current : nat;
  total : nat;
  message : option string;
  fileName : option string
}.

Inductive Role := user | model.

(** A retrieved fragment of a grounded answer. *)
Record GroundingChunk := mkChunk { retrievedText : option string }.

Record ChatMessage := mkMessage {
  role : Role;
  parts : list string;
  groundingChunks : option (list GroundingChunk)
}.

(** What [fileSearch] resolves to. *)
Record QueryResult := mkQuery {
  text : string;
  resultChunks : option (list GroundingChunk)
}.

(** A thrown value, as far as the handlers look at it: an [Error] with
    its [message], or another value with its truthiness and what
    [String(err)] gives. *)
Inductive JsValue :=
| JsError (msg : string)
| JsOther (truthy : bool) (str : string).

Definition is_truthy (v : JsValue) : bool :=
  match v with
  | JsError _ => true
  | JsOther b _ => b
  end.

(** [err instanceof Error ? err.message : String(err)]. *)
Definition describe (v : JsValue) : string :=
  match v with
  | JsError m => m
  | JsOther _ s => s
  end.

(** The state of the component: one field per [useState], and the
    current value of [ragStoreNameRef]. *)
Record AppState := mkApp {
  status : AppStatus;
  isApiKeySelected : bool;
  apiKeyError : option string;
  error : option string;
  uploadProgress : option UploadProgress;
  activeRagStoreName : option string;
  chatHistory : list ChatMessage;
  isQueryLoading : bool;
  documentName : string;
  files : list File;
  ragStoreNameRef : option string
}.

(** What leaves the component: calls of the service, lines on the
    console, and the updates of the progress and of the status that the
    screens show. *)
Inductive Effect :=
| CallInitialize
| CallCreateRagStore (displayName : string)
| CallUploadToRagStore (store : string) (f : File)
| CallFileSearch (store : string) (query : string)
| CallDeleteRagStore (store : string)
| CallHasSelectedApiKey
| ConsoleError (label : string)
| Alert (text : string)
| ProgressUpdate (p : option UploadProgress)
| StatusChange (s : AppStatus).

Record World := mkWorld {
  app : AppState;
  trace : list Effect
}.

(** ** Computations of a handler

    A handler reads and writes the state, leaves effects behind and may
    throw: a state monad with an exception. *)

Inductive Result (A : Type) :=
| Ok (a : A)
| Throw (e : JsValue).
Arguments Ok {A} a.
Arguments Throw {A} e.

Definition M (A : Type) : Type := World -> Result A * World.

Definition ret {A} (a : A) : M A := fun w => (Ok a, w).

Definition bind {A B} (m : M A) (k : A -> M B) : M B :=
  fun w => match m w with
           | (Ok a, w') => k a w'
           | (Throw e, w') => (Throw e, w')
           end.

Definition throw {A} (e : JsValue) : M A := fun w => (Throw e, w).

(** [try { m } catch (err) { h err }]. *)
Definition try_catch {A} (m : M A) (h : JsValue -> M A) : M A :=
  fun w => match m w with
           | (Ok a, w') => (Ok a, w')
           | (Throw e, w') => h e w'
           end.

(** [try { m } finally { f }]: [f] runs on every way out of [m]; what
    [f] throws replaces the outcome of [m]. *)
Definition try_finally {A} (m : M A) (f : M unit) : M A :=
  fun w => match m w with
           | (r, w') =>
               match f w' with
               | (Ok _, w'') => (r, w'')
               | (Throw e, w'') => (Throw e, w'')
               end
           end.

Definition get : M AppState := fun w => (Ok (app w), w).

Definition modify (f : AppState -> AppState) : M unit :=
  fun w => (Ok tt, {| app := f (app w); trace := trace w |}).

Definition emit (e : Effect) : M unit :=
  fun w => (Ok tt, {| app := app w; trace := trace w ++ [e] |}).

(** The outcome of a call of a collaborator, after its effect is
    recorded. *)
Definition call {A} (e : Effect) (r : Result A) : M A :=
  fun w => (r, {| app := app w; trace := trace w ++ [e] |}).

Definition exec {A} (m : M A) (w : World) : World := snd (m w).
Definition outcome {A} (m : M A) (w : World) : Result A := fst (m w).

Declare Scope handler_scope.
Delimit Scope handler_scope with handler.
Notation "x <- m ;; k" := (bind m (fun x => k))
  (at level 61, m at next level, right associativity) : handler_scope.
Notation "m ;; k" := (bind m (fun _ => k))
  (at level 61, right associativity) : handler_scope.
Local Open Scope handler_scope.

(** ** The setters of the state *)

Definition with_status v s :=
  mkApp v (isApiKeySelected s) (apiKeyError s) (error s) (uploadProgress s)
    (activeRagStoreName s) (chatHistory s) (isQueryLoading s)
    (documentName s) (files s) (ragStoreNameRef s).
Definition with_isApiKeySelected v s :=
  mkApp (status s) v (apiKeyError s) (error s) (uploadProgress s)
    (activeRagStoreName s) (chatHistory s) (isQueryLoading s)
    (documentName s) (files s) (ragStoreNameRef s).
Definition with_apiKeyError v s :=
  mkApp (status s) (isApiKeySelected s) v (error s) (uploadProgress s)
    (activeRagStoreName s) (chatHistory s) (isQueryLoading s)
    (documentName s) (files s) (ragStoreNameRef s).
Definition with_error v s :=
  mkApp (status s) (isApiKeySelected s) (apiKeyError s) v (uploadProgress s)
    (activeRagStoreName s) (chatHistory s) (isQueryLoading s)
    (documentName s) (files s) (ragStoreNameRef s).
Definition with_uploadProgress v s :=
  mkApp (status s) (isApiKeySelected s) (apiKeyError s) (error s) v
    (activeRagStoreName s) (chatHistory s) (isQueryLoading s)
    (documentName s) (files s) (ragStoreNameRef s).
Definition with_activeRagStoreName v s :=
  mkApp (status s) (isApiKeySelected s) (apiKeyError s) (error s)
    (uploadProgress s) v (chatHistory s) (isQueryLoading s)
    (documentName s) (files s) (ragStoreNameRef s).
Definition with_chatHistory v s :=
  mkApp (status s) (isApiKeySelected s) (apiKeyError s) (error s)
    (uploadProgress s) (activeRagStoreName s) v (isQueryLoading s)
    (documentName s) (files s) (ragStoreNameRef s).
Definition with_isQueryLoading v s :=
  mkApp (status s) (isApiKeySelected s) (apiKeyError s) (error s)
    (uploadProgress s) (activeRagStoreName s) (chatHistory s) v
    (documentName s) (files s) (ragStoreNameRef s).
Definition with_documentName v s :=
  mkApp (status s) (isApiKeySelected s) (apiKeyError s) (error s)
    (uploadProgress s) (activeRagStoreName s) (chatHistory s)
    (isQueryLoading s) v (files s) (ragStoreNameRef s).
Definition with_files v s :=
  mkApp (status s) (isApiKeySelected s) (apiKeyError s) (error s)
    (uploadProgress s) (activeRagStoreName s) (chatHistory s)
    (isQueryLoading s) (documentName s) v (ragStoreNameRef s).
Definition with_ragStoreNameRef v s :=
  mkApp (status s) (isApiKeySelected s) (apiKeyError s) (error s)
    (uploadProgress s) (activeRagStoreName s) (chatHistory s)
    (isQueryLoading s) (documentName s) (files s) v.

Definition setStatus (v : AppStatus) : M unit :=
  modify (with_status v) ;; emit (StatusChange v).
Definition setIsApiKeySelected (v : bool) : M unit :=
  modify (with_isApiKeySelected v).
Definition setApiKeyError (v : option string) : M unit :=
  modify (with_apiKeyError v).
Definition setError (v : option string) : M unit :=
  modify (with_error v).
(** The updater form [setUploadProgress(prev => f prev)] and the plain
    form; either way the screen sees the new value. *)
Definition updateUploadProgress
  (f : option UploadProgress -> option UploadProgress) : M unit :=
  s <- get ;;
  modify (with_uploadProgress (f (uploadProgress s))) ;;
  emit (ProgressUpdate (f (uploadProgress s))).
Definition setUploadProgress (v : option UploadProgress) : M unit :=
  updateUploadProgress (fun _ => v).
Definition setActiveRagStoreName (v : option string) : M unit :=
  modify (with_activeRagStoreName v).
Definition setChatHistory (v : list ChatMessage) : M unit :=
  modify (with_chatHistory v).
Definition updateChatHistory
  (f : list ChatMessage -> list ChatMessage) : M unit :=
  modify (fun s => with_chatHistory (f (chatHistory s)) s).
Definition setIsQueryLoading (v : bool) : M unit :=
  modify (with_isQueryLoading v).
Definition setDocumentName (v : string) : M unit :=
  modify (with_documentName v).
Definition setFiles (v : list File) : M unit :=
  modify (with_files v).

Definition console_error (label : string) : M unit :=
  emit (ConsoleError label).


(** ** The collaborators

    The service module and the host capability are not part of the
    component; the handlers see only what their calls answer.  A run of a
    handler is given the answers as functions of the arguments (and, for
    the uploads of one run, of the position in the loop); [now] is what
    [Date.now()] gives. *)

Record Service := mkService {
  now : N;
  initialize : Result unit;
  createRagStore : string -> Result string;
  uploadToRagStore : nat -> string -> File -> Result unit;
  fileSearch : string -> string -> Result QueryResult;
  deleteRagStore : string -> Result unit
}.

(** [window.aistudio]: each capability is there or not; when it is there
    a call resolves or rejects. *)
Record Host := mkHost {
  hasSelectedApiKey : option (Result bool);
  openSelectKey : option (Result unit)
}.

(** ** The handlers

    A [string | null] passes a test such as [if (activeRagStoreName)]
    when it is neither null nor the empty string: the handlers match on
    [Some (String _ _)] for it. *)

Definition checkApiKey (host : Host) : M unit :=
  match hasSelectedApiKey host with
  | Some answer =>
      try_catch
        (hasKey <- call CallHasSelectedApiKey answer ;;
         setIsApiKeySelected hasKey)
        (fun e =>
           console_error "Error checking for API key:" ;;
           setIsApiKeySelected false)
  | None => ret tt
  end.

Definition handleUnload (svc : Service) : M unit :=
  s <- get ;;
  match ragStoreNameRef s with
  | Some (String c store') =>
      let store := String c store' in
      try_catch
        (call (CallDeleteRagStore store) (deleteRagStore svc store))
        (fun err => console_error "Error deleting RAG store on unload:")
  | _ => ret tt
  end.

Definition handleError (message : string) (err : JsValue) : M unit :=
  console_error message ;;
  setError (Some (message ++
                  (if is_truthy err then ": " ++ describe err
                   else EmptyString))) ;;
  setStatus Error.

Definition clearError : M unit :=
  setError None ;;
  setStatus Welcome.

Definition handleSelectKey (host : Host) : M unit :=
  match openSelectKey host with
  | Some answer =>
      try_catch
        (match answer with
         | Ok _ => checkApiKey host
         | Throw e => throw e
         end)
        (fun err => console_error "Failed to open API key selection dialog")
  | None =>
      emit (Alert "API key selection is not available in this environment.")
  end.

(** The name shown above the chat. *)
Definition docName (fs : list File) : string :=
  match fs with
  | [f] => name f
  | [f; g] => name f ++ " & " ++ name g
  | _ => of_nat (List.length fs) ++ " documents"
  end.

(** The loop over the files: [i] counts from zero, [n] is
    [files.length], [fs] the files from position [i] on.  The updater
    copies the previous progress and replaces three of its fields; the
    previous progress is never null here, as the handler has set it just
    before the loop (a null would leave the copy without a [total]). *)
Fixpoint upload_loop (svc : Service) (ragStoreName : string) (n i : nat)
  (fs : list File) : M unit :=
  match fs with
  | [] => ret tt
  | f :: rest =>
      updateUploadProgress
        (fun prev =>
           Some {| current := i + 1;
                   total := match prev with
                            | Some p => total p
                            | None => 0
                            end;
                   message := Some "Reading document...";
                   fileName := Some ("(" ++ of_nat (i + 1) ++ "/" ++ of_nat n
                                     ++ ") " ++ name f) |}) ;;
      call (CallUploadToRagStore ragStoreName f)
           (uploadToRagStore svc i ragStoreName f) ;;
      upload_loop svc ragStoreName n (S i) rest
  end.

(** The display name of the store: a prefix and the time of the start. *)
Definition storeName (svc : Service) : string :=
  "chat-session-" ++ of_N (now svc).

Definition apiKeyInvalid : string :=
  "The selected API key is invalid. Please select a different one and try again.".

(** The test of the [catch] block on the lowered message. *)
Definition is_credential_error (err : JsValue) : bool :=
  let errorMessage := toLowerCase (describe err) in
  includes errorMessage "api key not valid"
  || includes errorMessage "requested entity was not found".

Definition handleUploadAndStartChat (svc : Service) : M unit :=
  s <- get ;;
  if negb (isApiKeySelected s) then
    setApiKeyError (Some "Please select your Gemini API Key first.") ;;
    throw (JsError "API Key is required.")
  else if (List.length (files s) =? 0)%nat then ret tt
  else
    setApiKeyError None ;;
    try_catch
      (call CallInitialize (initialize svc))
      (fun err =>
         handleError "Initialization failed. Please select a valid API Key." err ;;
         throw err) ;;
    setStatus Uploading ;;
    let totalSteps := List.length (files s) + 1 in
    setUploadProgress
      (Some (mkProgress 0 totalSteps (Some "Creating index...") None)) ;;
    try_finally
      (try_catch
         (ragStoreName <-
            call (CallCreateRagStore (storeName svc))
                 (createRagStore svc (storeName svc)) ;;
          setUploadProgress
            (Some (mkProgress 1 totalSteps (Some "Processing...") None)) ;;
          upload_loop svc ragStoreName (List.length (files s)) 0 (files s) ;;
          setUploadProgress
            (Some (mkProgress totalSteps totalSteps (Some "Ready!")
                     (Some EmptyString))) ;;
          setDocumentName (docName (files s)) ;;
          setActiveRagStoreName (Some ragStoreName) ;;
          setChatHistory [] ;;
          setStatus Chatting ;;
          setFiles [])
         (fun err =>
            (if is_credential_error err then
               setApiKeyError (Some apiKeyInvalid) ;;
               setIsApiKeySelected false ;;
               setStatus Welcome
             else handleError "Failed to start chat session" err) ;;
            throw err))
      (setUploadProgress None).

Definition handleEndChat (svc : Service) : M unit :=
  s <- get ;;
  match activeRagStoreName s with
  | Some (String c store') =>
      let store := String c store' in
      try_catch
        (call (CallDeleteRagStore store) (deleteRagStore svc store))
        (fun err => console_error "Failed to delete RAG store in background")
  | _ => ret tt
  end ;;
  setActiveRagStoreName None ;;
  setChatHistory [] ;;
  setDocumentName EmptyString ;;
  setFiles [] ;;
  setStatus Welcome.

Definition apology : string :=
  "Sorry, I encountered an error. Please try again.".

Definition handleSendMessage (svc : Service) (msg : string) : M unit :=
  s <- get ;;
  match activeRagStoreName s with
  | Some (String c store') =>
      let store := String c store' in
      let userMessage := mkMessage user [msg] None in
      updateChatHistory (fun prev => (prev ++ [userMessage])%list) ;;
      setIsQueryLoading true ;;
      try_finally
        (try_catch
           (result <- call (CallFileSearch store msg) (fileSearch svc store msg) ;;
            let modelMessage :=
              mkMessage model [text result] (resultChunks result) in
            updateChatHistory (fun prev => (prev ++ [modelMessage])%list))
           (fun err =>
              let errorMessage := mkMessage model [apology] None in
              updateChatHistory (fun prev => (prev ++ [errorMessage])%list) ;;
              handleError "Failed to get response" err))
        (setIsQueryLoading false)
  | _ => ret tt
  end.

(** [handleConfirmUpload] of the welcome screen, around [onUpload]. *)
Definition handleConfirmUpload (onUpload : M unit) : M unit :=
  try_catch onUpload (fun err => console_error "Upload process failed:").


(** ** Sessions

    What the screens let the user do, and what the page does on its own.
    An event carries the answers the collaborators give while its handler
    runs.  The sessions described here are sequential: a handler runs to
    its end before the next event is taken, and the states of a session
    are the states between two events.  In the page the new-chat button
    and the focus and unload listeners stay live while a start or a query
    waits for the service; runs in which such an event arrives in the
    middle of a handler are not among these sessions. *)

Inductive Event :=
| Focus (host : Host)
| SelectKey (host : Host)
| AddFiles (fs : list File)
| RemoveFile (indexToRemove : nat)
| ClearFiles
| StartChat (svc : Service)
| SendMessage (svc : Service) (msg : string)
| NewChat (svc : Service)
| TryAgain
| Unload (svc : Service).

Definition AppStatus_eqb (a b : AppStatus) : bool :=
  match a, b with
  | Initializing, Initializing | Welcome, Welcome | Uploading, Uploading
  | Chatting, Chatting | Error, Error => true
  | _, _ => false
  end.

(** [prevFiles.filter((_, index) => index !== indexToRemove)]. *)
Fixpoint remove_at (i : nat) (fs : list File) : list File :=
  match fs, i with
  | [], _ => []
  | _ :: rest, 0 => rest
  | f :: rest, S k => f :: remove_at k rest
  end.

(** [renderContent]: the screen of each status offers its own controls.
    The welcome screen has the key button while no key is selected, the
    file controls, and the start button once files are selected (disabled
    without a key); the chat screen has the form (which sends a query that
    is not blank, and is disabled while a query is loading) and the
    new-chat button; the error screen has the try-again button. *)
Definition offered (s : AppState) (ev : Event) : bool :=
  match ev with
  | Focus _ | Unload _ => true
  | SelectKey _ => AppStatus_eqb (status s) Welcome && negb (isApiKeySelected s)
  | AddFiles _ | RemoveFile _ | ClearFiles => AppStatus_eqb (status s) Welcome
  | StartChat _ =>
      AppStatus_eqb (status s) Welcome
      && negb (List.length (files s) =? 0)%nat
      && isApiKeySelected s
  | SendMessage _ msg =>
      AppStatus_eqb (status s) Chatting
      && negb (isQueryLoading s) && negb (is_blank msg)
  | NewChat _ => AppStatus_eqb (status s) Chatting
  | TryAgain => AppStatus_eqb (status s) Error
  end.

Definition handler (ev : Event) : M unit :=
  match ev with
  | Focus host => checkApiKey host
  | SelectKey host => handleSelectKey host
  | AddFiles fs => modify (fun s => with_files (files s ++ fs)%list s)
  | RemoveFile i => modify (fun s => with_files (remove_at i (files s)) s)
  | ClearFiles => setFiles []
  | StartChat svc => handleConfirmUpload (handleUploadAndStartChat svc)
  | SendMessage svc msg => handleSendMessage svc msg
  | NewChat svc => handleEndChat svc
  | TryAgain => clearError
  | Unload svc => handleUnload svc
  end.

(** The effect that keeps [ragStoreNameRef.current] equal to
    [activeRagStoreName] after each render. *)
Definition sync_ref (w : World) : World :=
  {| app := with_ragStoreNameRef (activeRagStoreName (app w)) (app w);
     trace := trace w |}.

Definition dispatch (w : World) (ev : Event) : World :=
  if offered (app w) ev then sync_ref (exec (handler ev) w) else w.

Definition run (evs : list Event) (w : World) : World :=
  fold_left dispatch evs w.

Definition initial_state : AppState :=
  {| status := Initializing; isApiKeySelected := false; apiKeyError := None;
     error := None; uploadProgress := None; activeRagStoreName := None;
     chatHistory := []; isQueryLoading := false; documentName := EmptyString;
     files := []; ragStoreNameRef := None |}.

(** The effects of the first render: the key is checked and the welcome
    screen comes up. *)
Definition mount (host : Host) : World :=
  exec (checkApiKey host ;; setStatus Welcome)
       {| app := initial_state; trace := [] |}.

(** The states a sequential session can be in between two events. *)
Definition reachable (w : World) : Prop :=
  exists host evs, w = run evs (mount host).

(** Every event of the list is on offer when its turn comes. *)
Fixpoint all_offered (evs : list Event) (w : World) : bool :=
  match evs with
  | [] => true
  | ev :: rest => offered (app w) ev && all_offered rest (dispatch w ev)
  end.

(** How often the deletion of [store] was requested. *)
Definition deletions (store : string) (t : list Effect) : nat :=
  List.length
    (filter (fun e => match e with
                      | CallDeleteRagStore n => String.eqb n store
                      | _ => false
                      end) t).

(** ** Vocabulary of the statements *)

(** The first upload the service rejects, in the order of the loop. *)
Fixpoint first_upload_failure (svc : Service) (store : string) (i : nat)
  (fs : list File) : option JsValue :=
  match fs with
  | [] => None
  | f :: rest =>
      match uploadToRagStore svc i store f with
      | Throw e => Some e
      | Ok _ => first_upload_failure svc store (S i) rest
      end
  end.

(** The error with which the creation of the store or the ingestion of
    the files fails, if one of them does. *)
Definition indexing_failure (svc : Service) (fs : list File)
  : option JsValue :=
  match createRagStore svc (storeName svc) with
  | Throw e => Some e
  | Ok store => first_upload_failure svc store 0 fs
  end.

(** The state a successful start leaves: the chat over [store]. *)
Definition started (fs : list File) (store : string) (s : AppState)
  : AppState :=
  with_files []
    (with_status Chatting
       (with_chatHistory []
          (with_activeRagStoreName (Some store)
             (with_documentName (docName fs)
                (with_uploadProgress None (with_apiKeyError None s)))))).

(** The message [handleError] shows. *)
Definition error_text (message : string) (err : JsValue) : string :=
  message ++ (if is_truthy err then ": " ++ describe err else EmptyString).

(** The state [handleError] leaves. *)
Definition failed (message : string) (err : JsValue) (s : AppState)
  : AppState :=
  with_status Error (with_error (Some (error_text message err)) s).

(** The state a failed creation or ingestion leaves. *)
Definition index_failed (err : JsValue) (s : AppState) : AppState :=
  if is_credential_error err then
    with_status Welcome
      (with_isApiKeySelected false
         (with_apiKeyError (Some apiKeyInvalid) (with_uploadProgress None s)))
  else
    failed "Failed to start chat session" err
      (with_uploadProgress None (with_apiKeyError None s)).

(** The last progress a successful start shows. *)
Definition ready_progress (n : nat) : UploadProgress :=
  mkProgress (n + 1) (n + 1) (Some "Ready!") (Some EmptyString).

(** ** Vocabulary of the statements about traces and sessions *)

(** The effects a handler adds to the trace of [w]. *)
Definition effects_of {A} (m : M A) (w : World) : list Effect :=
  skipn (List.length (trace w)) (trace (exec m w)).

Definition is_service_call (e : Effect) : bool :=
  match e with
  | CallInitialize | CallCreateRagStore _ | CallUploadToRagStore _ _
  | CallFileSearch _ _ | CallDeleteRagStore _ => true
  | _ => false
  end.

(** The calls of the service among some effects, in their order. *)
Definition service_calls (t : list Effect) : list Effect :=
  filter is_service_call t.

(** The values of the progress among some effects, in their order. *)
Fixpoint progress_updates (t : list Effect) : list (option UploadProgress) :=
  match t with
  | [] => []
  | ProgressUpdate p :: rest => p :: progress_updates rest
  | _ :: rest => progress_updates rest
  end.

(** The files the loop hands to the service: the files up to the first
    one whose upload fails, that one included. *)
Fixpoint uploads_tried (svc : Service) (store : string) (i : nat)
  (fs : list File) : list File :=
  match fs with
  | [] => []
  | f :: rest =>
      f :: match uploadToRagStore svc i store f with
           | Ok _ => uploads_tried svc store (S i) rest
           | Throw _ => []
           end
  end.

(** What holds of the state between two events of a sequential
    session. *)
Record Invariant (s : AppState) : Prop := {
  inv_status : status s = Welcome \/ status s = Chatting \/ status s = Error;
  inv_progress : uploadProgress s = None;
  inv_loading : isQueryLoading s = false;
  inv_ref : ragStoreNameRef s = activeRagStoreName s;
  inv_error : status s = Error <-> error s <> None;
  inv_chat_files : status s = Chatting -> files s = [];
  inv_chat_store : status s = Chatting -> activeRagStoreName s <> None
}.

(** ** The sources under an answer

    The chat screen maps over the chunks of an answer with their
    positions, and shows for each chunk whose text is there and not empty
    a button [Source k], [k] the position plus one, that opens the text. *)
Fixpoint source_buttons (chunkIndex : nat) (chunks : list GroundingChunk)
  : list (nat * string) :=
  match chunks with
  | [] => []
  | chunk :: rest =>
      match retrievedText chunk with
      | Some (String c t) =>
          (chunkIndex + 1, String c t) :: source_buttons (S chunkIndex) rest
      | _ => source_buttons (S chunkIndex) rest
      end
  end.

(** The buttons under a message: sources are shown for a turn of the
    model that has chunks. *)
Definition message_sources (m : ChatMessage) : list (nat * string) :=
  match role m, groundingChunks m with
  | model, Some (chunk :: rest) => source_buttons 0 (chunk :: rest)
  | _, _ => []
  end.

(** ** Sample collaborators and sessions *)

Module Sample.

Definition host_with_key : Host :=
  {| hasSelectedApiKey := Some (Ok true); openSelectKey := Some (Ok tt) |}.

Definition host_without_capability : Host :=
  {| hasSelectedApiKey := None; openSelectKey := None |}.

(** A service that answers every call, and names the store [store]. *)
Definition service (store : string) : Service :=
  {| now := 1700000000000%N;
     initialize := Ok tt;
     createRagStore := fun _ => Ok store;
     uploadToRagStore := fun _ _ _ => Ok tt;
     fileSearch := fun _ _ => Ok (mkQuery "It is on page 3." None);
     deleteRagStore := fun _ => Ok tt |}.

(** The same, with a query that is rejected. *)
Definition service_query_fails (store : string) : Service :=
  {| now := 1700000000000%N;
     initialize := Ok tt;
     createRagStore := fun _ => Ok store;
     uploadToRagStore := fun _ _ _ => Ok tt;
     fileSearch := fun _ _ => Throw (JsError "503 Service Unavailable");
     deleteRagStore := fun _ => Ok tt |}.

(** A service whose store creation is rejected with [e]. *)
Definition service_create_fails (e : JsValue) : Service :=
  {| now := 1700000000000%N;
     initialize := Ok tt;
     createRagStore := fun _ => Throw e;
     uploadToRagStore := fun _ _ _ => Ok tt;
     fileSearch := fun _ _ => Ok (mkQuery "It is on page 3." None);
     deleteRagStore := fun _ => Ok tt |}.

Definition a_pdf : File := {| name := "a.pdf" |}.
Definition b_pdf : File := {| name := "b.pdf" |}.
Definition c_pdf : File := {| name := "c.pdf" |}.

(** The welcome screen after the first render, with a key. *)
Definition fresh : World := mount host_with_key.

(** Files selected, nothing started. *)
Definition ready (fs : list File) : World := run [AddFiles fs] fresh.

(** The answer of the service to a key it does not accept. *)
Definition rejected_key : JsValue :=
  JsError "API key not valid. Please pass a valid API key.".

(** A start that the service refused for its key, a new key, and the
    selection cleared. *)
Definition key_reselected : World :=
  run [ AddFiles [a_pdf];
        StartChat (service_create_fails rejected_key);
        Focus host_with_key;
        ClearFiles ] fresh.

(** A chat over [a.pdf] on the store [stores/one]. *)
Definition chatting : World :=
  run [AddFiles [a_pdf]; StartChat (service "stores/one")] fresh.

(** A chat whose query fails, the error acknowledged, a second chat on
    another store, and the page closed. *)
Definition abandoned_after_error : list Event :=
  [ AddFiles [a_pdf];
    StartChat (service "stores/one");
    SendMessage (service_query_fails "stores/one") "hello";
    TryAgain;
    AddFiles [b_pdf];
    StartChat (service "stores/two");
    Unload (service "stores/two") ].

End Sample.

End App.

(* ===================================================================== *)
(** * Facts about strings *)
(* ===================================================================== *)

Module StrFacts.
Import Str.

Lemma append_nil_r (s : string) : s ++ EmptyString = s.
Proof. induction s as [|c s IH]; simpl; [reflexivity | now rewrite IH]. Qed.

Lemma append_assoc (a b c : string) : (a ++ b) ++ c = a ++ (b ++ c).
Proof. induction a as [|x a IH]; simpl; [reflexivity | now rewrite IH]. Qed.

Lemma length_append (a b : string) :
  String.length (a ++ b) = String.length a + String.length b.
Proof. induction a as [|x a IH]; simpl; [reflexivity | now rewrite IH]. Qed.

Lemma forallb_append (p : ascii -> bool) (a b : string) :
  forallb p (a ++ b) = forallb p a && forallb p b.
Proof.
  induction a as [|x a IH]; simpl; [reflexivity|].
  rewrite IH. now rewrite andb_assoc.
Qed.

Lemma drop_append (a b : string) : drop (String.length a) (a ++ b) = b.
Proof. induction a as [|x a IH]; simpl; [now destruct b | exact IH]. Qed.

Lemma drop_while_all (p : ascii -> bool) (s : string) :
  forallb p s = true -> drop_while p s = EmptyString.
Proof.
  induction s as [|c s IH]; simpl; [reflexivity|].
  intros H. apply andb_prop in H as [Hc Hs]. rewrite Hc. now apply IH.
Qed.

End StrFacts.

(* ===================================================================== *)
(** * Facts about the renderer *)
(* ===================================================================== *)

Module MarkdownFacts.
Import Str StrFacts Markdown.

(** ** Matchers and markers *)

Lemma prefix_append (a b : string) : String.prefix a (a ++ b) = true.
Proof.
  induction a as [|x a IH]; simpl; [now destruct b|].
  destruct (ascii_dec x x) as [_|N]; [exact IH | now elim N].
Qed.

Lemma prefix_head (k c : ascii) (a s : string) :
  k <> c -> String.prefix (String k a) (String c s) = false.
Proof. intros N. simpl. destruct (ascii_dec k c); [contradiction | reflexivity]. Qed.

Lemma marker_differs (k c : ascii) :
  marker k = true -> marker c = false -> k <> c.
Proof. intros Hk Hc E. subst. congruence. Qed.

Lemma span_at_head (open' close : string) (k c : ascii) (s : string) :
  marker k = true -> marker c = false ->
  span_at (String k open') close (String c s) = None.
Proof.
  intros Hk Hc. unfold span_at.
  now rewrite (prefix_head k c open' s (marker_differs k c Hk Hc)).
Qed.

Lemma bold_re_quiet : quiet bold_re.
Proof.
  split; [reflexivity|]. intros c s Hc.
  unfold bold_re, wrap, alt.
  rewrite (span_at_head "*" "**" "*"%char c s eq_refl Hc).
  now rewrite (span_at_head "_" "__" "_"%char c s eq_refl Hc).
Qed.

Lemma em_re_quiet : quiet em_re.
Proof.
  split; [reflexivity|]. intros c s Hc.
  unfold em_re, wrap, alt.
  rewrite (span_at_head EmptyString "*" "*"%char c s eq_refl Hc).
  now rewrite (span_at_head EmptyString "_" "_"%char c s eq_refl Hc).
Qed.

Lemma code_re_quiet : quiet code_re.
Proof.
  split; [reflexivity|]. intros c s Hc.
  unfold code_re, wrap, code_at.
  destruct (Ascii.eqb c tick) eqn:E; [|reflexivity].
  apply Ascii.eqb_eq in E. subst c. discriminate Hc.
Qed.

(** ** Replacement over text without markers *)

Lemma replace_from_plain (m : matcher) (s : string) :
  quiet m -> markerless s = true -> replace_from m 0 s = s.
Proof.
  intros [Hnil Hhead]. induction s as [|c s IH]; simpl; intros H.
  - now rewrite Hnil.
  - apply andb_prop in H as [Hc Hs]. apply negb_true_iff in Hc.
    rewrite (Hhead c s Hc). now rewrite (IH Hs).
Qed.

Lemma replace_from_append_plain (m : matcher) (pre r : string) :
  quiet m -> markerless pre = true ->
  replace_from m 0 (pre ++ r) = pre ++ replace_from m 0 r.
Proof.
  intros [Hnil Hhead]. induction pre as [|c pre IH]; simpl; intros H.
  - reflexivity.
  - apply andb_prop in H as [Hc Hs]. apply negb_true_iff in Hc.
    rewrite (Hhead c (pre ++ r) Hc). now rewrite (IH Hs).
Qed.

Lemma replace_from_skip (m : matcher) (a b : string) :
  replace_from m (String.length a) (a ++ b) = replace_from m 0 b.
Proof. induction a as [|c a IH]; simpl; [reflexivity | exact IH]. Qed.

(** A match of [n + 1] code units at the head of [a ++ b], where [a] has
    [n + 1] code units, is replaced and the walk goes on at [b]. *)
Lemma replace_from_match (m : matcher) (c : ascii) (a b out : string) :
  m (String c (a ++ b)) = Some (out, S (String.length a)) ->
  replace_from m 0 (String c (a ++ b)) = out ++ replace_from m 0 b.
Proof. intros H. simpl. rewrite H. now rewrite replace_from_skip. Qed.

Lemma inline_plain (l : string) : markerless l = true -> inline l = l.
Proof.
  intros H. unfold inline, replace_all.
  rewrite (replace_from_plain bold_re l bold_re_quiet H).
  rewrite (replace_from_plain em_re l em_re_quiet H).
  exact (replace_from_plain code_re l code_re_quiet H).
Qed.

(** ** Spans *)

Lemma span_text_markerless (x : string) :
  span_text x = true -> markerless x = true.
Proof.
  unfold span_text, markerless. induction x as [|c x IH]; simpl; [reflexivity|].
  intros H. apply andb_prop in H as [Hc Hx]. apply andb_prop in Hc as [Hm _].
  rewrite Hm. now apply IH.
Qed.

Lemma lazy_dots_here (close s : string) :
  String.prefix close s = true ->
  lazy_dots close s = Some (EmptyString, String.length close).
Proof. intros H. destruct s; cbn [lazy_dots]; now rewrite H. Qed.

Lemma lazy_dots_step (close : string) (c : ascii) (s : string) :
  String.prefix close (String c s) = false ->
  is_line_terminator c = false ->
  lazy_dots close (String c s)
  = match lazy_dots close s with
    | Some (cap, n) => Some (String c cap, S n)
    | None => None
    end.
Proof. intros H Ht. cbn [lazy_dots]. now rewrite H, Ht. Qed.

Lemma lazy_dots_found (k : ascii) (close' x post : string) :
  marker k = true -> span_text x = true ->
  lazy_dots (String k close') (x ++ String k close' ++ post)
  = Some (x, String.length x + String.length (String k close')).
Proof.
  intros Hk. induction x as [|c x IH]; intros Hx.
  - cbn [append]. apply (lazy_dots_here (String k close')).
    exact (prefix_append (String k close') post).
  - cbn [span_text forallb] in Hx. apply andb_prop in Hx as [Hc Hx'].
    apply andb_prop in Hc as [Hm Ht].
    apply negb_true_iff in Hm. apply negb_true_iff in Ht.
    change (String c x ++ String k close' ++ post)
      with (String c (x ++ String k close' ++ post)).
    rewrite lazy_dots_step;
      [| exact (prefix_head k c close' _ (marker_differs k c Hk Hm)) | exact Ht].
    rewrite (IH Hx'). reflexivity.
Qed.

Lemma span_at_found (k k' : ascii) (open' close' x post : string) :
  marker k' = true -> span_text x = true ->
  span_at (String k open') (String k' close')
    (String k open' ++ x ++ String k' close' ++ post)
  = Some (x, String.length (String k open' ++ x ++ String k' close')).
Proof.
  intros Hk Hx. unfold span_at.
  rewrite prefix_append, drop_append.
  rewrite (lazy_dots_found k' close' x post Hk Hx).
  now rewrite !length_append.
Qed.

Lemma replace_from_found (m : matcher) (a b out : string) :
  a <> EmptyString ->
  m (a ++ b) = Some (out, String.length a) ->
  replace_from m 0 (a ++ b) = out ++ replace_from m 0 b.
Proof.
  destruct a as [|c a]; [congruence|]. intros _ H.
  exact (replace_from_match m c a b out H).
Qed.

(** One span between marker-free surroundings, under one replacement. *)
Lemma replace_span (m : matcher) (pre a b out : string) :
  quiet m -> markerless pre = true -> markerless b = true ->
  a <> EmptyString -> m (a ++ b) = Some (out, String.length a) ->
  replace_from m 0 (pre ++ a ++ b) = pre ++ out ++ b.
Proof.
  intros Hq Hpre Hb Ha Hm.
  rewrite (replace_from_append_plain m pre (a ++ b) Hq Hpre).
  rewrite (replace_from_found m a b out Ha Hm).
  now rewrite (replace_from_plain m b Hq Hb).
Qed.



Lemma markerless_append (a b : string) :
  markerless (a ++ b) = markerless a && markerless b.
Proof. apply forallb_append. Qed.


(** The three replacements pass over a start of the line that has no
    marker. *)
Lemma inline_append_plain (pre r : string) :
  markerless pre = true -> inline (pre ++ r) = pre ++ inline r.
Proof.
  intros Hpre. unfold inline, replace_all.
  rewrite (replace_from_append_plain bold_re pre r bold_re_quiet Hpre).
  rewrite (replace_from_append_plain em_re pre _ em_re_quiet Hpre).
  exact (replace_from_append_plain code_re pre _ code_re_quiet Hpre).
Qed.






(** ** Paragraphs *)

Lemma split_lines_cons (s : string) :
  exists l ls, split_lines s = l :: ls.
Proof.
  induction s as [|c s [l [ls IH]]]; simpl; [now eexists; eexists|].
  destruct (Ascii.eqb c LF); [now eexists; eexists|].
  rewrite IH. now eexists; eexists.
Qed.

Lemma concat_merge (sep buf l : string) (ls : list string) :
  String.concat sep ((buf ++ sep ++ l) :: ls)
  = String.concat sep (buf :: l :: ls).
Proof.
  destruct ls as [|l' ls]; cbn [String.concat]; [reflexivity|].
  now rewrite !append_assoc.
Qed.

Lemma flushList_closed (st : RenderState) :
  listType st = None -> flushList st = st.
Proof. intros H. unfold flushList. now rewrite H. Qed.

Lemma plain_line_inv (l : string) :
  plain_line l = true ->
  markerless l = true /\ is_blank l = false
  /\ match_ol l = None /\ match_ul l = None.
Proof.
  unfold plain_line. intros H.
  apply andb_prop in H as [H Hl]. apply andb_prop in H as [Hm Hb].
  apply negb_true_iff in Hb.
  destruct (match_ol l), (match_ul l); try discriminate. now repeat split.
Qed.

Lemma render_line_plain (st : RenderState) (l : string) :
  plain_line l = true -> listType st = None ->
  render_line st l
  = {| html := html st;
       listType := None;
       paraBuffer := paraBuffer st
                     ++ (match paraBuffer st with
                         | EmptyString => EmptyString
                         | String _ _ => "<br/>"
                         end) ++ l |}.
Proof.
  intros Hl Hst. apply plain_line_inv in Hl as (Hm & Hb & Hol & Hul).
  unfold render_line. rewrite (inline_plain l Hm), Hol, Hul, Hb.
  rewrite (flushList_closed st Hst). now rewrite Hst.
Qed.

Lemma render_lines_plain (ls : list string) :
  forall st,
    listType st = None -> paraBuffer st <> EmptyString ->
    List.forallb plain_line ls = true ->
    render_lines st ls
    = {| html := html st;
         listType := None;
         paraBuffer := String.concat "<br/>" (paraBuffer st :: ls) |}.
Proof.
  induction ls as [|l ls IH]; intros st Hst Hbuf Hls.
  - destruct st as [h t b]. simpl in *. now subst.
  - cbn [List.forallb] in Hls. apply andb_prop in Hls as [Hl Hls].
    cbn [render_lines fold_left]. fold (render_lines (render_line st l) ls).
    rewrite (render_line_plain st l Hl Hst).
    destruct (paraBuffer st) as [|c b] eqn:E; [congruence|].
    rewrite IH; [| reflexivity | discriminate | exact Hls].
    cbn [html paraBuffer]. now rewrite concat_merge.
Qed.

Lemma blank_not_list (l : string) :
  is_blank l = true -> match_ol l = None /\ match_ul l = None.
Proof.
  intros H. unfold match_ol, match_ul.
  now rewrite (drop_while_all is_space l H).
Qed.

Lemma flushPara_buffer (st : RenderState) :
  paraBuffer (flushPara st) = EmptyString.
Proof. unfold flushPara. destruct (paraBuffer st) eqn:E; [exact E | reflexivity]. Qed.

Lemma flushList_type (st : RenderState) : listType (flushList st) = None.
Proof. unfold flushList. destruct (listType st) eqn:E; [reflexivity | exact E]. Qed.

Lemma list_line_buffer (t : ListType) (item : string) (st : RenderState) :
  paraBuffer (list_line t item st) = EmptyString.
Proof.
  unfold list_line, append_html. cbn [paraBuffer].
  destruct (match listType (flushPara st) with
            | Some t' => ListType_eqb t' t
            | None => false
            end).
  - apply flushPara_buffer.
  - cbn [paraBuffer]. unfold flushList.
    destruct (listType (flushPara st)); cbn [paraBuffer]; apply flushPara_buffer.
Qed.

Lemma render_line_excludes (st : RenderState) (rawLine : string) :
  list_excludes_para (render_line st rawLine).
Proof.
  unfold list_excludes_para, render_line.
  destruct (match_ol (inline rawLine)); [intros _; apply list_line_buffer|].
  destruct (match_ul (inline rawLine)); [intros _; apply list_line_buffer|].
  destruct (is_blank (inline rawLine)).
  - intros _. apply flushPara_buffer.
  - cbn [listType]. now rewrite flushList_type.
Qed.

Lemma render_lines_excludes (ls : list string) :
  forall st, list_excludes_para st -> list_excludes_para (render_lines st ls).
Proof.
  induction ls as [|l ls IH]; intros st H; [exact H|].
  cbn [render_lines fold_left]. apply IH. apply render_line_excludes.
Qed.

Lemma render_lines_app (a b : list string) (st : RenderState) :
  render_lines st (a ++ b) = render_lines (render_lines st a) b.
Proof. unfold render_lines. apply fold_left_app. Qed.

Lemma render_blank_closes_list (st : RenderState) (t : ListType)
  (blank : string) :
  listType st = Some t -> paraBuffer st = EmptyString ->
  is_blank (inline blank) = true ->
  render_line st blank
  = {| html := html st ++ "</" ++ tag t ++ ">";
       listType := None;
       paraBuffer := EmptyString |}.
Proof.
  intros Ht Hb Hblank. unfold render_line.
  destruct (blank_not_list _ Hblank) as [-> ->]. rewrite Hblank.
  unfold flushList. rewrite Ht. unfold flushPara. cbn [paraBuffer].
  now rewrite Hb.
Qed.

Lemma render_para_after_blank (h next : string) :
  match_ol (inline next) = None -> match_ul (inline next) = None ->
  is_blank (inline next) = false ->
  html (flushList (flushPara
          (render_line {| html := h; listType := None;
                          paraBuffer := EmptyString |} next)))
  = h ++ p_open ++ inline next ++ "</p>".
Proof.
  intros Hol Hul Hb. unfold render_line. rewrite Hol, Hul, Hb.
  cbn [flushList listType html paraBuffer append].
  destruct (inline next) as [|c l] eqn:E; [discriminate Hb|].
  reflexivity.
Qed.

(** C7, as the renderer has it.  A text none of whose lines is blank, is
    a list line or holds a marker renders as one paragraph block that
    holds the lines, joined by the line break.  The lines [1. foo] and
    [2. bar] render as one ordered list with two items.  A blank line
    that follows an open list closes the list, and a line after it that
    is neither blank nor a list line is a paragraph of its own. *)
Theorem renderMarkdown_blocks :
  (forall text,
      List.forallb plain_line (split_lines text) = true ->
      renderMarkdown text
      = p_open ++ String.concat "<br/>" (split_lines text) ++ "</p>")
  /\ renderMarkdown ("1. foo" ++ nl ++ "2. bar")
     = ol_open ++ "<li>foo</li>" ++ "<li>bar</li>" ++ "</ol>"
  /\ (forall ls t blank next,
         listType (render_lines render_init ls) = Some t ->
         is_blank (inline blank) = true ->
         match_ol (inline next) = None -> match_ul (inline next) = None ->
         is_blank (inline next) = false ->
         render_lines render_init (ls ++ [blank])
         = {| html := html (render_lines render_init ls)
                      ++ "</" ++ tag t ++ ">";
              listType := None;
              paraBuffer := EmptyString |}
         /\ html (flushList (flushPara
                    (render_lines render_init (ls ++ [blank; next]))))
            = (html (render_lines render_init ls) ++ "</" ++ tag t ++ ">")
              ++ p_open ++ inline next ++ "</p>").
Proof.
  split; [|split].
  - intros text H.
    destruct (split_lines_cons text) as (l & ls & E). rewrite E in *.
    cbn [List.forallb] in H. apply andb_prop in H as [Hl Hls].
    destruct text as [|c text].
    { cbn in E. injection E as <- <-. discriminate Hl. }
    unfold renderMarkdown. rewrite E.
    cbn [render_lines fold_left]. fold (render_lines (render_line render_init l) ls).
    rewrite (render_line_plain render_init l Hl eq_refl).
    cbn [render_init paraBuffer html append].
    destruct l as [|c' l']; [discriminate Hl|].
    rewrite render_lines_plain; [| reflexivity | discriminate | exact Hls].
    cbn [paraBuffer html].
    assert (Hne : String.concat "<br/>" (String c' l' :: ls) <> EmptyString).
    { destruct ls; cbn [String.concat append]; discriminate. }
    unfold flushPara. cbn [paraBuffer html listType].
    destruct (String.concat "<br/>" (String c' l' :: ls)) eqn:Ec; [congruence|].
    reflexivity.
  - reflexivity.
  - intros ls t blank next Ht Hblank Hol Hul Hnb.
    pose proof (render_lines_excludes ls render_init (fun _ => eq_refl)) as Hinv.
    assert (Hbuf : paraBuffer (render_lines render_init ls) = EmptyString).
    { apply Hinv. rewrite Ht. discriminate. }
    assert (Hstep : render_lines render_init (ls ++ [blank])
                    = {| html := html (render_lines render_init ls)
                                 ++ "</" ++ tag t ++ ">";
                         listType := None;
                         paraBuffer := EmptyString |}).
    { rewrite render_lines_app. cbn [render_lines fold_left].
      exact (render_blank_closes_list _ t blank Ht Hbuf Hblank). }
    split; [exact Hstep|].
    change (ls ++ [blank; next])%list with (ls ++ [blank] ++ [next])%list.
    rewrite app_assoc, render_lines_app, Hstep.
    cbn [render_lines fold_left].
    exact (render_para_after_blank _ next Hol Hul Hnb).
Qed.

Lemma renderMarkdown_blocks_witness :
  renderMarkdown ("Hello there." ++ nl ++ "How are you?")
  = p_open ++ "Hello there.<br/>How are you?" ++ "</p>"
  /\ html (flushList (flushPara
             (render_lines render_init ["- milk"; EmptyString; "Thanks"])))
     = (ul_open ++ "<li>milk</li>" ++ "</ul>") ++ p_open ++ "Thanks" ++ "</p>".
Proof.
  split.
  - exact (proj1 renderMarkdown_blocks
             ("Hello there." ++ nl ++ "How are you?") eq_refl).
  - exact (proj2 (proj2 (proj2 renderMarkdown_blocks)
                    ["- milk"] ul EmptyString "Thanks"
                    eq_refl eq_refl eq_refl eq_refl eq_refl)).
Defined.

(** C7 as stated fails: a text of letters and line feeds only, with an
    empty line in the middle, renders as two paragraph blocks, not as one
    block that holds the text with its lines joined. *)
Lemma blank_line_splits_paragraphs :
  markerless ("a" ++ nl ++ nl ++ "b") = true
  /\ renderMarkdown ("a" ++ nl ++ nl ++ "b")
     = (p_open ++ "a" ++ "</p>") ++ (p_open ++ "b" ++ "</p>")
  /\ renderMarkdown ("a" ++ nl ++ nl ++ "b")
     <> p_open
        ++ String.concat "<br/>" (split_lines ("a" ++ nl ++ nl ++ "b"))
        ++ "</p>".
Proof. split; [reflexivity | split; [reflexivity | discriminate]]. Qed.

End MarkdownFacts.

(* ===================================================================== *)
(** * Facts about the session controller *)
(* ===================================================================== *)

Module AppFacts.
Import Str StrFacts App.
Local Open Scope handler_scope.

(** Unfolds the plumbing of a handler down to states and effects. *)
Ltac plumbing :=
  unfold setStatus, setIsApiKeySelected, setApiKeyError, setError,
    setUploadProgress, updateUploadProgress, setActiveRagStoreName,
    setChatHistory, updateChatHistory, setIsQueryLoading, setDocumentName,
    setFiles, console_error, try_finally, try_catch, call, emit, modify,
    get, throw, bind, ret, exec, outcome in *.

(** ** The credential check *)

(** C9. Without the capability [hasSelectedApiKey] the check leaves the
    state and the trace as they are.  The flag a check leaves behind is
    the answer of the capability, false when the call is rejected, and
    the old flag when there is no capability; so a flag that was set is
    cleared only by a capability that is there and answers false or
    rejects. *)
Theorem checkApiKey_without_capability (host : Host) (w : World) :
  (hasSelectedApiKey host = None -> checkApiKey host w = (Ok tt, w))
  /\ isApiKeySelected (app (exec (checkApiKey host) w))
     = match hasSelectedApiKey host with
       | None => isApiKeySelected (app w)
       | Some (Ok hasKey) => hasKey
       | Some (Throw _) => false
       end
  /\ (isApiKeySelected (app w) = true ->
      isApiKeySelected (app (exec (checkApiKey host) w)) = false ->
      hasSelectedApiKey host = Some (Ok false)
      \/ exists e, hasSelectedApiKey host = Some (Throw e)).
Proof.
  unfold checkApiKey.
  destruct (hasSelectedApiKey host) as [[[|]|e]|]; plumbing; cbn;
    (split; [try discriminate; reflexivity | split; [reflexivity|]]);
    intros H1 H2; try congruence; eauto.
Qed.

Lemma checkApiKey_without_capability_witness :
  checkApiKey Sample.host_without_capability Sample.chatting
  = (Ok tt, Sample.chatting)
  /\ hasSelectedApiKey (mkHost (Some (Ok false)) None) = Some (Ok false).
Proof.
  split.
  - exact (proj1 (checkApiKey_without_capability
                    Sample.host_without_capability Sample.chatting) eq_refl).
  - destruct (proj2 (proj2 (checkApiKey_without_capability
                              (mkHost (Some (Ok false)) None) Sample.chatting))
                eq_refl eq_refl) as [H | [e H]].
    + exact H.
    + discriminate H.
Defined.

(** ** Starting with nothing selected *)

Lemma start_without_files (svc : Service) (w : World) :
  isApiKeySelected (app w) = true -> files (app w) = [] ->
  handleUploadAndStartChat svc w = (Ok tt, w).
Proof.
  intros Hkey Hfiles.
  unfold handleUploadAndStartChat, bind, get, ret. cbn.
  now rewrite Hkey, Hfiles.
Qed.

(** C10. With a key selected and no file selected the start handler
    returns at once: the state, the message under the key button
    included, and the trace of calls are what they were. *)
Theorem start_without_files_is_noop (svc : Service) (w : World) :
  isApiKeySelected (app w) = true -> files (app w) = [] ->
  handleUploadAndStartChat svc w = (Ok tt, w)
  /\ apiKeyError (app (exec (handleUploadAndStartChat svc) w))
     = apiKeyError (app w)
  /\ status (app (exec (handleUploadAndStartChat svc) w)) = status (app w)
  /\ uploadProgress (app (exec (handleUploadAndStartChat svc) w))
     = uploadProgress (app w)
  /\ trace (exec (handleUploadAndStartChat svc) w) = trace w.
Proof.
  intros Hkey Hfiles.
  pose proof (start_without_files svc w Hkey Hfiles) as E.
  unfold exec. rewrite E. cbn. repeat split.
Qed.

Lemma start_without_files_is_noop_witness :
  apiKeyError (app Sample.key_reselected) = Some apiKeyInvalid
  /\ handleUploadAndStartChat (Sample.service "stores/one")
       Sample.key_reselected
     = (Ok tt, Sample.key_reselected).
Proof.
  split; [reflexivity|].
  exact (proj1 (start_without_files_is_noop (Sample.service "stores/one")
                  Sample.key_reselected eq_refl eq_refl)).
Defined.

(** ** The loop over the files *)

Lemma with_uploadProgress_same (s : AppState) :
  with_uploadProgress (uploadProgress s) s = s.
Proof. now destruct s. Qed.

(** The loop touches the progress and the trace only, and ends with the
    first failure of an upload. *)
Lemma upload_loop_spec (svc : Service) (store : string) (n : nat)
  (fs : list File) :
  forall i w,
  exists p t,
    upload_loop svc store n i fs w
    = (match first_upload_failure svc store i fs with
       | Some e => Throw e
       | None => Ok tt
       end,
       {| app := with_uploadProgress p (app w); trace := (trace w ++ t)%list |}).
Proof.
  induction fs as [|f rest IH]; intros i w.
  - exists (uploadProgress (app w)), []. cbn.
    rewrite with_uploadProgress_same, app_nil_r. now destruct w.
  - cbn [upload_loop first_upload_failure]. plumbing. cbn.
    destruct (uploadToRagStore svc i store f) as [[]|e].
    + match goal with
      | |- context [upload_loop _ _ _ _ rest ?w1] =>
          destruct (IH (S i) w1) as (p & t & E); rewrite E
      end.
      cbn. eexists; eexists. rewrite <- !app_assoc. reflexivity.
    + eexists; eexists. rewrite <- !app_assoc. reflexivity.
Qed.

(** ** The ways out of a start *)

Lemma length_nonzero {A} (l : list A) :
  l <> [] -> (List.length l =? 0)%nat = false.
Proof. destruct l; [congruence | reflexivity]. Qed.

Section Start.

Variables (svc : Service) (w : World).
Hypothesis Hkey : isApiKeySelected (app w) = true.
Hypothesis Hfiles : files (app w) <> [].

Lemma start_init_fails (e : JsValue) :
  initialize svc = Throw e ->
  handleUploadAndStartChat svc w
  = (Throw e,
     {| app := failed "Initialization failed. Please select a valid API Key."
                 e (with_apiKeyError None (app w));
        trace := (trace w
                  ++ [CallInitialize;
                      ConsoleError
                        "Initialization failed. Please select a valid API Key.";
                      StatusChange Error])%list |}).
Proof.
  intros Hinit. unfold handleUploadAndStartChat, handleError. plumbing. cbn.
  rewrite Hkey, (length_nonzero _ Hfiles), Hinit. cbn.
  now rewrite <- !app_assoc.
Qed.

Lemma start_create_fails (e : JsValue) :
  initialize svc = Ok tt ->
  createRagStore svc (storeName svc) = Throw e ->
  exists t,
    handleUploadAndStartChat svc w
    = (Throw e, {| app := index_failed e (app w); trace := t |}).
Proof.
  intros Hinit Hcreate.
  unfold handleUploadAndStartChat, handleError, index_failed, failed,
    error_text.
  plumbing. cbn -[storeName append].
  rewrite Hkey, (length_nonzero _ Hfiles), Hinit. cbn -[storeName append].
  rewrite Hcreate.
  destruct (is_credential_error e); cbn -[storeName append];
    eexists; reflexivity.
Qed.

Lemma start_upload_fails (store : string) (e : JsValue) :
  initialize svc = Ok tt ->
  createRagStore svc (storeName svc) = Ok store ->
  first_upload_failure svc store 0 (files (app w)) = Some e ->
  exists t,
    handleUploadAndStartChat svc w
    = (Throw e, {| app := index_failed e (app w); trace := t |}).
Proof.
  intros Hinit Hcreate Hup.
  unfold handleUploadAndStartChat, handleError, index_failed, failed,
    error_text.
  plumbing. cbn -[storeName append].
  rewrite Hkey, (length_nonzero _ Hfiles), Hinit. cbn -[storeName append].
  rewrite Hcreate.
  match goal with
  | |- context [upload_loop svc store ?n 0 ?fs ?w1] =>
      destruct (upload_loop_spec svc store n fs 0 w1) as (p & t & E);
      rewrite E
  end.
  rewrite Hup.
  destruct (is_credential_error e); cbn -[storeName append];
    eexists; reflexivity.
Qed.

Lemma snoc3 {A} (l : list A) (x y z : A) :
  (((l ++ [x]) ++ [y]) ++ [z] = l ++ [x; y; z])%list.
Proof. now rewrite <- !app_assoc. Qed.

Lemma start_succeeds (store : string) :
  initialize svc = Ok tt ->
  createRagStore svc (storeName svc) = Ok store ->
  first_upload_failure svc store 0 (files (app w)) = None ->
  exists pre,
    handleUploadAndStartChat svc w
    = (Ok tt,
       {| app := started (files (app w)) store (app w);
          trace := (pre
                    ++ [ProgressUpdate
                          (Some (ready_progress (List.length (files (app w)))));
                        StatusChange Chatting;
                        ProgressUpdate None])%list |}).
Proof.
  intros Hinit Hcreate Hup.
  unfold handleUploadAndStartChat, started, ready_progress.
  plumbing. cbn -[storeName append].
  rewrite Hkey, (length_nonzero _ Hfiles), Hinit. cbn -[storeName append].
  rewrite Hcreate.
  match goal with
  | |- context [upload_loop svc store ?n 0 ?fs ?w1] =>
      destruct (upload_loop_spec svc store n fs 0 w1) as (p & t & E);
      rewrite E
  end.
  rewrite Hup. cbn -[storeName append].
  eexists. rewrite snoc3. reflexivity.
Qed.

(** With a key and files, a start is one of four runs. *)
Lemma start_cases :
  (exists e, initialize svc = Throw e
             /\ outcome (handleUploadAndStartChat svc) w = Throw e
             /\ app (exec (handleUploadAndStartChat svc) w)
                = failed "Initialization failed. Please select a valid API Key."
                    e (with_apiKeyError None (app w)))
  \/ (exists e, initialize svc = Ok tt
                /\ indexing_failure svc (files (app w)) = Some e
                /\ outcome (handleUploadAndStartChat svc) w = Throw e
                /\ app (exec (handleUploadAndStartChat svc) w)
                   = index_failed e (app w))
  \/ (exists store pre,
         initialize svc = Ok tt
         /\ createRagStore svc (storeName svc) = Ok store
         /\ indexing_failure svc (files (app w)) = None
         /\ handleUploadAndStartChat svc w
            = (Ok tt,
               {| app := started (files (app w)) store (app w);
                  trace := (pre
                            ++ [ProgressUpdate
                                  (Some (ready_progress
                                           (List.length (files (app w)))));
                                StatusChange Chatting;
                                ProgressUpdate None])%list |})).
Proof.
  destruct (initialize svc) as [[]|e] eqn:Hinit.
  - destruct (createRagStore svc (storeName svc)) as [store|e] eqn:Hcreate.
    + destruct (first_upload_failure svc store 0 (files (app w)))
        as [e|] eqn:Hup.
      * right; left. exists e.
        destruct (start_upload_fails store e Hinit Hcreate Hup) as [t E].
        unfold indexing_failure, outcome, exec. rewrite Hcreate, E.
        now repeat split.
      * right; right.
        destruct (start_succeeds store Hinit Hcreate Hup) as [pre E].
        exists store, pre. unfold indexing_failure. rewrite Hcreate.
        now repeat split.
    + right; left. exists e.
      destruct (start_create_fails e Hinit Hcreate) as [t E].
      unfold indexing_failure, outcome, exec. rewrite Hcreate, E.
      now repeat split.
  - left. exists e. unfold outcome, exec.
    rewrite (start_init_fails e Hinit). now repeat split.
Qed.

End Start.

(** ** Between two events no progress is shown *)

Lemma confirm_app (m : M unit) (w : World) :
  app (exec (handleConfirmUpload m) w) = app (exec m w).
Proof.
  unfold handleConfirmUpload. plumbing.
  now destruct (m w) as [[[]|e] w'].
Qed.


Lemma start_clears_progress (svc : Service) (w : World) :
  isApiKeySelected (app w) = true -> files (app w) <> [] ->
  uploadProgress (app w) = None ->
  uploadProgress (app (exec (handleUploadAndStartChat svc) w)) = None.
Proof.
  intros Hkey Hfiles Hnone.
  destruct (start_cases svc w Hkey Hfiles)
    as [(e & _ & _ & E) | [(e & _ & _ & _ & E) | (store & pre & _ & _ & _ & E)]].
  - rewrite E. exact Hnone.
  - rewrite E. unfold index_failed. now destruct (is_credential_error e).
  - unfold exec. now rewrite E.
Qed.

Lemma checkApiKey_progress (host : Host) (w : World) :
  uploadProgress (app (exec (checkApiKey host) w)) = uploadProgress (app w).
Proof.
  unfold checkApiKey.
  destruct (hasSelectedApiKey host) as [[b|e]|]; plumbing; reflexivity.
Qed.

Lemma offered_StartChat (svc : Service) (s : AppState) :
  offered s (StartChat svc) = true ->
  status s = Welcome /\ files s <> [] /\ isApiKeySelected s = true.
Proof.
  cbn. intros H. apply andb_prop in H as [H Hkey].
  apply andb_prop in H as [Hst Hfs].
  repeat split; [now destruct (status s) | | exact Hkey].
  intros E. rewrite E in Hfs. discriminate Hfs.
Qed.

Lemma dispatch_keeps_progress (w : World) (ev : Event) :
  uploadProgress (app w) = None ->
  uploadProgress (app (dispatch w ev)) = None.
Proof.
  intros Hnone. unfold dispatch.
  destruct (offered (app w) ev) eqn:Hoff; [|exact Hnone].
  unfold sync_ref. cbn [app with_ragStoreNameRef uploadProgress].
  destruct ev; cbn [handler].
  - now rewrite checkApiKey_progress.
  - unfold handleSelectKey.
    destruct (openSelectKey host) as [[[]|e]|]; plumbing; cbn;
      try exact Hnone.
    fold (exec (checkApiKey host) w).
    destruct (checkApiKey host w) as [[[]|e] w'] eqn:E;
      pose proof (checkApiKey_progress host w) as P;
      unfold exec in P; rewrite E in P; cbn in *; congruence.
  - exact Hnone.
  - exact Hnone.
  - exact Hnone.
  - rewrite confirm_app.
    destruct (offered_StartChat svc (app w) Hoff) as (_ & Hfiles & Hkey).
    now apply start_clears_progress.
  - unfold handleSendMessage, handleError. plumbing. cbn.
    destruct (activeRagStoreName (app w)) as [[|c store]|]; cbn;
      try exact Hnone.
    destruct (fileSearch svc (String c store) msg); cbn; exact Hnone.
  - unfold handleEndChat. plumbing. cbn.
    destruct (activeRagStoreName (app w)) as [[|c store]|]; cbn;
      try exact Hnone.
    destruct (deleteRagStore svc (String c store)) as [[]|e]; cbn; exact Hnone.
  - exact Hnone.
  - unfold handleUnload. plumbing. cbn.
    destruct (ragStoreNameRef (app w)) as [[|c store]|]; cbn;
      try exact Hnone.
    destruct (deleteRagStore svc (String c store)) as [[]|e]; cbn; exact Hnone.
Qed.

Lemma run_keeps_progress (evs : list Event) :
  forall w, uploadProgress (app w) = None ->
            uploadProgress (app (run evs w)) = None.
Proof.
  induction evs as [|ev evs IH]; intros w H; [exact H|].
  cbn [run fold_left]. apply IH. now apply dispatch_keeps_progress.
Qed.

Lemma reachable_no_progress (w : World) :
  reachable w -> uploadProgress (app w) = None.
Proof.
  intros (host & evs & ->). apply run_keeps_progress.
  unfold mount. plumbing. cbn.
  pose proof (checkApiKey_progress host {| app := initial_state; trace := [] |})
    as P.
  unfold exec in P.
  destruct (checkApiKey host {| app := initial_state; trace := [] |})
    as [[[]|e] w']; cbn in *; exact P.
Qed.

(** ** A start that the service refuses for the key *)

(** C3. With a key and a selection of files, when the creation of the
    store or the ingestion of a file fails with an error whose message,
    in lower case, holds [api key not valid] or [requested entity was not
    found], the start clears the
    key flag, sets the message about the invalid key, shows the welcome
    screen again and leaves the selected files as they were. *)
Theorem credential_failure_returns_to_welcome
  (svc : Service) (w : World) (e : JsValue) :
  isApiKeySelected (app w) = true ->
  files (app w) <> [] ->
  initialize svc = Ok tt ->
  indexing_failure svc (files (app w)) = Some e ->
  includes (toLowerCase (describe e)) "api key not valid" = true
  \/ includes (toLowerCase (describe e)) "requested entity was not found"
     = true ->
  isApiKeySelected (app (exec (handleUploadAndStartChat svc) w)) = false
  /\ apiKeyError (app (exec (handleUploadAndStartChat svc) w))
     = Some apiKeyInvalid
  /\ status (app (exec (handleUploadAndStartChat svc) w)) = Welcome
  /\ files (app (exec (handleUploadAndStartChat svc) w)) = files (app w).
Proof.
  intros Hkey Hfiles Hinit Hfail Hmsg.
  assert (Hcred : is_credential_error e = true)
    by (unfold is_credential_error; apply orb_true_iff; exact Hmsg).
  destruct (start_cases svc w Hkey Hfiles)
    as [(e' & Hi & _) | [(e' & _ & Hf & _ & E) | (st & pre & _ & _ & Hf & _)]];
    try congruence.
  rewrite Hfail in Hf. injection Hf as <-.
  rewrite E. unfold index_failed. rewrite Hcred. now repeat split.
Qed.

Lemma credential_failure_returns_to_welcome_witness :
  is_credential_error Sample.rejected_key = true
  /\ files (app (Sample.ready [Sample.a_pdf; Sample.b_pdf]))
     = [Sample.a_pdf; Sample.b_pdf]
  /\ isApiKeySelected
       (app (exec (handleUploadAndStartChat
                     (Sample.service_create_fails Sample.rejected_key))
                  (Sample.ready [Sample.a_pdf; Sample.b_pdf]))) = false
  /\ files
       (app (exec (handleUploadAndStartChat
                     (Sample.service_create_fails Sample.rejected_key))
                  (Sample.ready [Sample.a_pdf; Sample.b_pdf])))
     = [Sample.a_pdf; Sample.b_pdf].
Proof.
  split; [reflexivity | split; [reflexivity|]].
  assert (Hfiles : files (app (Sample.ready [Sample.a_pdf; Sample.b_pdf]))
                   <> []) by discriminate.
  destruct (credential_failure_returns_to_welcome
              (Sample.service_create_fails Sample.rejected_key)
              (Sample.ready [Sample.a_pdf; Sample.b_pdf])
              Sample.rejected_key
              eq_refl Hfiles eq_refl eq_refl (or_introl eq_refl))
    as (Hflag & _ & _ & Hsame).
  split; [exact Hflag | exact Hsame].
Defined.

(** ** A start that succeeds *)

(** C5. In a state of a session with a key and [n] selected files, [n]
    not zero, the progress is cleared when the start handler is through,
    however it ends.  When it returns normally, the last progress shown
    before the chat screen has [current] equal to [total] and [total]
    equal to [n + 1]; after it the chat screen is open with an empty
    history and no file is selected. *)
Theorem start_progress_and_transition (svc : Service) (w : World) :
  reachable w ->
  isApiKeySelected (app w) = true ->
  files (app w) <> [] ->
  uploadProgress (app (exec (handleUploadAndStartChat svc) w)) = None
  /\ (outcome (handleUploadAndStartChat svc) w = Ok tt ->
      exists pre ready,
        trace (exec (handleUploadAndStartChat svc) w)
        = (pre ++ [ProgressUpdate (Some ready);
                   StatusChange Chatting;
                   ProgressUpdate None])%list
        /\ current ready = total ready
        /\ total ready = List.length (files (app w)) + 1
        /\ status (app (exec (handleUploadAndStartChat svc) w)) = Chatting
        /\ chatHistory (app (exec (handleUploadAndStartChat svc) w)) = []
        /\ files (app (exec (handleUploadAndStartChat svc) w)) = []).
Proof.
  intros Hreach Hkey Hfiles.
  split.
  - apply start_clears_progress; try assumption.
    now apply reachable_no_progress.
  - intros Hok.
    destruct (start_cases svc w Hkey Hfiles)
      as [(e & _ & Ho & _) | [(e & _ & _ & Ho & _)
                             | (store & pre & _ & _ & _ & E)]];
      try congruence.
    exists pre, (ready_progress (List.length (files (app w)))).
    unfold exec. rewrite E. cbn. now repeat split.
Qed.

Lemma start_progress_and_transition_witness :
  status (app (exec (handleUploadAndStartChat (Sample.service "stores/one"))
                    (Sample.ready [Sample.a_pdf; Sample.b_pdf])))
  = Chatting
  /\ uploadProgress
       (app (exec (handleUploadAndStartChat
                     (Sample.service_create_fails (JsError "quota exceeded")))
                  (Sample.ready [Sample.a_pdf; Sample.b_pdf])))
     = None.
Proof.
  assert (Hreach : reachable (Sample.ready [Sample.a_pdf; Sample.b_pdf])).
  { exists Sample.host_with_key, [AddFiles [Sample.a_pdf; Sample.b_pdf]].
    reflexivity. }
  assert (Hfiles : files (app (Sample.ready [Sample.a_pdf; Sample.b_pdf]))
                   <> []) by discriminate.
  split.
  - destruct (proj2 (start_progress_and_transition
                       (Sample.service "stores/one")
                       (Sample.ready [Sample.a_pdf; Sample.b_pdf])
                       Hreach eq_refl Hfiles) eq_refl)
      as (pre & ready & _ & _ & _ & Hst & _).
    exact Hst.
  - exact (proj1 (start_progress_and_transition
                    (Sample.service_create_fails (JsError "quota exceeded"))
                    (Sample.ready [Sample.a_pdf; Sample.b_pdf])
                    Hreach eq_refl Hfiles)).
Defined.

(** C6. After a start that returns normally on [n] selected files, [n]
    not zero, the display name is the name of the file when [n = 1], the
    two names with [ & ] between them when [n = 2], and the number [n]
    followed by [ documents] when [n >= 3]. *)
Theorem display_name_by_count (svc : Service) (w : World) :
  isApiKeySelected (app w) = true ->
  files (app w) <> [] ->
  outcome (handleUploadAndStartChat svc) w = Ok tt ->
  (forall f, files (app w) = [f] ->
             documentName (app (exec (handleUploadAndStartChat svc) w))
             = name f)
  /\ (forall f g, files (app w) = [f; g] ->
                  documentName (app (exec (handleUploadAndStartChat svc) w))
                  = name f ++ " & " ++ name g)
  /\ (3 <= List.length (files (app w)) ->
      documentName (app (exec (handleUploadAndStartChat svc) w))
      = of_nat (List.length (files (app w))) ++ " documents").
Proof.
  intros Hkey Hfiles Hok.
  destruct (start_cases svc w Hkey Hfiles)
    as [(e & _ & Ho & _) | [(e & _ & _ & Ho & _)
                           | (store & pre & _ & _ & _ & E)]];
    try congruence.
  unfold exec. rewrite E. cbn [snd app started documentName
                                 with_files with_status with_chatHistory
                                 with_activeRagStoreName with_documentName].
  repeat split.
  - intros f ->. reflexivity.
  - intros f g ->. reflexivity.
  - intros Hn. destruct (files (app w)) as [|f [|g [|h rest]]];
      cbn in Hn; try lia. reflexivity.
Qed.

Lemma display_name_by_count_witness :
  documentName
    (app (exec (handleUploadAndStartChat (Sample.service "stores/one"))
               (Sample.ready [Sample.a_pdf; Sample.b_pdf; Sample.c_pdf])))
  = "3 documents"
  /\ documentName
       (app (exec (handleUploadAndStartChat (Sample.service "stores/one"))
                  (Sample.ready [Sample.a_pdf; Sample.b_pdf])))
     = "a.pdf & b.pdf"
  /\ documentName
       (app (exec (handleUploadAndStartChat (Sample.service "stores/one"))
                  (Sample.ready [Sample.a_pdf])))
     = "a.pdf".
Proof.
  split; [|split].
  - refine (proj2 (proj2 (display_name_by_count (Sample.service "stores/one")
              (Sample.ready [Sample.a_pdf; Sample.b_pdf; Sample.c_pdf])
              eq_refl _ eq_refl)) _); [discriminate | cbn; lia].
  - refine (proj1 (proj2 (display_name_by_count (Sample.service "stores/one")
              (Sample.ready [Sample.a_pdf; Sample.b_pdf])
              eq_refl _ eq_refl)) Sample.a_pdf Sample.b_pdf eq_refl).
    discriminate.
  - refine (proj1 (display_name_by_count (Sample.service "stores/one")
              (Sample.ready [Sample.a_pdf])
              eq_refl _ eq_refl) Sample.a_pdf eq_refl).
    discriminate.
Defined.

(** ** A query that fails *)

(** C1, as the handler has it.  With a store name that is set and not
    empty, when the query is rejected the history grows by the turn of
    the user and by one turn of the model that holds the apology, the
    loading flag is cleared, and [handleError] records the error and
    shows the error screen: the status is [Error], whatever it was. *)
Theorem query_failure_shows_error_screen
  (svc : Service) (msg store : string) (e : JsValue) (w : World) :
  activeRagStoreName (app w) = Some store ->
  store <> EmptyString ->
  fileSearch svc store msg = Throw e ->
  outcome (handleSendMessage svc msg) w = Ok tt
  /\ chatHistory (app (exec (handleSendMessage svc msg) w))
     = (chatHistory (app w)
        ++ [mkMessage user [msg] None; mkMessage model [apology] None])%list
  /\ status (app (exec (handleSendMessage svc msg) w)) = Error
  /\ error (app (exec (handleSendMessage svc msg) w))
     = Some (error_text "Failed to get response" e)
  /\ isQueryLoading (app (exec (handleSendMessage svc msg) w)) = false.
Proof.
  intros Hname Hne Hq.
  destruct store as [|c store]; [congruence|].
  unfold handleSendMessage, handleError, error_text. plumbing. cbn.
  rewrite Hname, Hq. cbn. rewrite <- app_assoc. now repeat split.
Qed.

Lemma query_failure_shows_error_screen_witness :
  status
    (app (exec (handleSendMessage
                  (Sample.service_query_fails "stores/one") "hello")
               Sample.chatting))
  = Error.
Proof.
  destruct (query_failure_shows_error_screen
              (Sample.service_query_fails "stores/one") "hello" "stores/one"
              (JsError "503 Service Unavailable") Sample.chatting
              eq_refl ltac:(discriminate) eq_refl)
    as (_ & _ & H & _).
  exact H.
Defined.

(** C1 as stated fails: in a chat over a store, a query that the service
    rejects takes the session from the chat screen to the error
    screen. *)
Lemma query_failure_leaves_chat :
  status (app Sample.chatting) = Chatting
  /\ activeRagStoreName (app Sample.chatting) = Some "stores/one"
  /\ fileSearch (Sample.service_query_fails "stores/one") "stores/one" "hello"
     = Throw (JsError "503 Service Unavailable")
  /\ status
       (app (exec (handleSendMessage
                     (Sample.service_query_fails "stores/one") "hello")
                  Sample.chatting))
     <> Chatting.
Proof. repeat (split; [reflexivity|]). discriminate. Qed.

(** ** What the handlers throw *)




(** ** The deletion of the store *)

Lemma deletions_app (store : string) (t1 t2 : list Effect) :
  deletions store (t1 ++ t2) = deletions store t1 + deletions store t2.
Proof. unfold deletions. now rewrite filter_app, length_app. Qed.

Lemma deletions_delete (store : string) :
  deletions store [CallDeleteRagStore store] = 1.
Proof. unfold deletions. cbn [filter]. now rewrite String.eqb_refl. Qed.

(** Ending the chat asks once for the deletion of the active store and
    forgets its name. *)
Lemma end_chat_deletes_once (svc : Service) (store : string) (w : World) :
  activeRagStoreName (app w) = Some store -> store <> EmptyString ->
  deletions store (trace (exec (handleEndChat svc) w))
  = deletions store (trace w) + 1
  /\ activeRagStoreName (app (exec (handleEndChat svc) w)) = None.
Proof.
  intros Hname Hne. destruct store as [|c store]; [congruence|].
  unfold handleEndChat. plumbing. cbn -[deletions]. rewrite Hname.
  destruct (deleteRagStore svc (String c store)) as [[]|e];
    cbn -[deletions]; rewrite !deletions_app, deletions_delete;
    cbn; split; (lia || reflexivity).
Qed.

(** The unload handler asks once for the deletion of the store whose
    name the ref holds, and for nothing when the ref holds none. *)
Lemma unload_deletes_once (svc : Service) (store : string) (w : World) :
  ragStoreNameRef (app w) = Some store -> store <> EmptyString ->
  deletions store (trace (exec (handleUnload svc) w))
  = deletions store (trace w) + 1.
Proof.
  intros Hname Hne. destruct store as [|c store]; [congruence|].
  unfold handleUnload. plumbing. cbn -[deletions]. rewrite Hname.
  destruct (deleteRagStore svc (String c store)) as [[]|e];
    cbn -[deletions]; rewrite !deletions_app, deletions_delete;
    cbn; lia.
Qed.

Lemma unload_without_store (svc : Service) (w : World) :
  ragStoreNameRef (app w) = None ->
  exec (handleUnload svc) w = w.
Proof.
  intros Hname. unfold handleUnload. plumbing. cbn. rewrite Hname.
  now destruct w.
Qed.

(** A chat that is ended by the new-chat button and a page that is then
    closed: one request for the store of the chat. *)
Lemma new_chat_then_unload (svc svc' : Service) (store : string) (w : World) :
  status (app w) = Chatting ->
  activeRagStoreName (app w) = Some store -> store <> EmptyString ->
  deletions store (trace (run [NewChat svc; Unload svc'] w))
  = deletions store (trace w) + 1.
Proof.
  intros Hst Hname Hne.
  destruct (end_chat_deletes_once svc store w Hname Hne) as [Hdel Hnone].
  cbn [run fold_left]. unfold dispatch at 2. cbn [offered handler].
  rewrite Hst. cbn [AppStatus_eqb].
  unfold dispatch. cbn [offered handler].
  rewrite unload_without_store;
    [| unfold sync_ref; cbn; exact Hnone].
  unfold sync_ref. cbn [trace]. exact Hdel.
Qed.

(** C4 at the failing session.  The store [stores/one] is created and
    its chat is open; a query fails, the error is acknowledged, a second
    start puts [stores/two] in the place of [stores/one], and the page is
    closed.  Every event is on offer when it comes.  The deletion of
    [stores/two] is requested once, that of [stores/one] never. *)
Theorem store_leaked_after_error :
  all_offered Sample.abandoned_after_error Sample.fresh = true
  /\ status (app (run (firstn 2 Sample.abandoned_after_error) Sample.fresh))
     = Chatting
  /\ activeRagStoreName
       (app (run (firstn 2 Sample.abandoned_after_error) Sample.fresh))
     = Some "stores/one"
  /\ activeRagStoreName
       (app (run (firstn 4 Sample.abandoned_after_error) Sample.fresh))
     = Some "stores/one"
  /\ activeRagStoreName
       (app (run (firstn 6 Sample.abandoned_after_error) Sample.fresh))
     = Some "stores/two"
  /\ deletions "stores/two"
       (trace (run Sample.abandoned_after_error Sample.fresh)) = 1
  /\ deletions "stores/one"
       (trace (run Sample.abandoned_after_error Sample.fresh)) = 0.
Proof. repeat (split; [vm_compute; reflexivity|]). vm_compute. reflexivity. Qed.

End AppFacts.

(* ===================================================================== *)
(** * More about the renderer *)
(* ===================================================================== *)

Module MarkdownMore.
Import Str StrFacts Markdown MarkdownFacts.

(** ** Lines of a text *)

Lemma split_lines_single (a : string) :
  no_LF a = true -> split_lines a = [a].
Proof.
  induction a as [|c a IH]; cbn; [reflexivity|].
  intros H. apply andb_prop in H as [Hc Ha]. apply negb_true_iff in Hc.
  rewrite Hc, (IH Ha). reflexivity.
Qed.

Lemma split_lines_append (a b : string) :
  no_LF a = true ->
  split_lines (a ++ String LF b) = a :: split_lines b.
Proof.
  induction a as [|c a IH]; cbn [append split_lines].
  - intros _. now rewrite Ascii.eqb_refl.
  - intros H. cbn in H. apply andb_prop in H as [Hc Ha].
    apply negb_true_iff in Hc. rewrite Hc, (IH Ha). reflexivity.
Qed.

Lemma concat_cons2 (sep a b : string) (r : list string) :
  String.concat sep (a :: b :: r) = a ++ sep ++ String.concat sep (b :: r).
Proof. reflexivity. Qed.

(** Splitting the text of lines gives the lines back. *)
Lemma split_unlines (l : string) (ls : list string) :
  List.forallb no_LF (l :: ls) = true ->
  split_lines (unlines (l :: ls)) = l :: ls.
Proof.
  revert l. induction ls as [|l' ls IH]; intros l H.
  - cbn in H. rewrite andb_true_r in H. now apply split_lines_single.
  - cbn [List.forallb] in H. apply andb_prop in H as [Hl H].
    unfold unlines in *. rewrite concat_cons2.
    change (nl ++ String.concat nl (l' :: ls))
      with (String LF (String.concat nl (l' :: ls))).
    rewrite (split_lines_append l _ Hl). now rewrite (IH l' H).
Qed.

Lemma space_not_marker (c : ascii) : is_space c = true -> marker c = false.
Proof.
  destruct c as [[] [] [] [] [] [] [] []]; vm_compute; intros H;
    (reflexivity || discriminate H).
Qed.

Lemma blank_markerless (l : string) : is_blank l = true -> markerless l = true.
Proof.
  unfold markerless, is_blank. induction l as [|c l IH]; [reflexivity|].
  cbn [forallb]. intros H. apply andb_prop in H as [Hc Hl].
  now rewrite (space_not_marker c Hc), (IH Hl).
Qed.

Lemma render_line_blank_init (l : string) :
  is_blank l = true -> render_line render_init l = render_init.
Proof.
  intros H. pose proof (blank_markerless l H) as Hm.
  unfold render_line. rewrite (inline_plain l Hm).
  destruct (blank_not_list l H) as [-> ->]. now rewrite H.
Qed.

(** The renderer on the text of lines is the pass over the lines. *)
Lemma renderMarkdown_unlines (l : string) (ls : list string) :
  List.forallb no_LF (l :: ls) = true ->
  renderMarkdown (unlines (l :: ls))
  = html (flushList (flushPara (render_lines render_init (l :: ls)))).
Proof.
  intros H. unfold renderMarkdown.
  destruct (unlines (l :: ls)) as [|c text] eqn:E.
  - destruct ls as [|l' ls]; unfold unlines in E; cbn in E.
    + subst l. reflexivity.
    + destruct l; discriminate E.
  - rewrite <- E. now rewrite (split_unlines l ls H).
Qed.

(** ** Text that renders as nothing *)

Lemma blank_lines (text : string) :
  is_blank text = true -> List.forallb is_blank (split_lines text) = true.
Proof.
  unfold is_blank. induction text as [|c text IH]; [reflexivity|].
  cbn [forallb split_lines]. intros H. apply andb_prop in H as [Hc Ht].
  specialize (IH Ht).
  destruct (Ascii.eqb c LF); [exact IH|].
  destruct (split_lines text) as [|l ls]; cbn in *; [now rewrite Hc|].
  apply andb_prop in IH as [Hl Hls]. now rewrite Hc, Hl, Hls.
Qed.

Lemma render_blank_lines (ls : list string) :
  List.forallb is_blank ls = true -> render_lines render_init ls = render_init.
Proof.
  induction ls as [|l ls IH]; [reflexivity|].
  cbn [List.forallb render_lines fold_left]. intros H.
  apply andb_prop in H as [Hl Hls].
  rewrite (render_line_blank_init l Hl). exact (IH Hls).
Qed.

(** X1. A text of white space only (spaces, tabs, line feeds, carriage
    returns) renders as the empty markup: no paragraph, no list. *)
Theorem blank_text_renders_nothing (text : string) :
  is_blank text = true -> renderMarkdown text = EmptyString.
Proof.
  intros H. unfold renderMarkdown. destruct text as [|c text]; [reflexivity|].
  now rewrite (render_blank_lines _ (blank_lines _ H)).
Qed.

Lemma blank_text_renders_nothing_witness :
  renderMarkdown ("  " ++ nl ++ String CR nl ++ " ") = EmptyString.
Proof.
  exact (blank_text_renders_nothing ("  " ++ nl ++ String CR nl ++ " ")
           eq_refl).
Defined.

(** ** Markers without a partner *)

Lemma replace_from_untriggered (m : matcher) (p : ascii -> bool) (s : string) :
  m EmptyString = None ->
  (forall c r, p c = false -> m (String c r) = None) ->
  forallb (fun c => negb (p c)) s = true ->
  replace_from m 0 s = s.
Proof.
  intros Hnil Hhead. induction s as [|c s IH]; cbn; intros H.
  - now rewrite Hnil.
  - apply andb_prop in H as [Hc Hs]. apply negb_true_iff in Hc.
    rewrite (Hhead c s Hc). now rewrite (IH Hs).
Qed.

Lemma lazy_dots_none (a : ascii) (close' s : string) :
  marker a = true -> markerless s = true ->
  lazy_dots (String a close') s = None.
Proof.
  intros Ha. induction s as [|c s IH]; intros Hs; [reflexivity|].
  cbn [markerless forallb] in Hs. apply andb_prop in Hs as [Hc Hs].
  apply negb_true_iff in Hc. cbn [lazy_dots].
  rewrite (prefix_head a c close' s (marker_differs a c Ha Hc)).
  destruct (is_line_terminator c); [reflexivity|].
  change (markerless s = true) in Hs. now rewrite (IH Hs).
Qed.

Lemma markerless_head (c : ascii) (s : string) :
  markerless (String c s) = true -> marker c = false /\ markerless s = true.
Proof.
  unfold markerless. cbn [forallb]. intros H.
  apply andb_prop in H as [Hc Hs]. now apply negb_true_iff in Hc.
Qed.

(** A doubled marker [aa] does not stand at a marker that is followed by
    text without markers. *)
Lemma prefix_double (a k : ascii) (r : string) :
  marker a = true -> markerless r = true ->
  String.prefix (String a (String a EmptyString)) (String k r) = false.
Proof.
  intros Ha Hr. cbn [String.prefix].
  destruct (ascii_dec a k) as [_|_]; [|reflexivity].
  destruct r as [|c r]; [reflexivity|].
  destruct (markerless_head c r Hr) as [Hc _].
  exact (prefix_head a c EmptyString r (marker_differs a c Ha Hc)).
Qed.

Lemma bold_re_lone (k : ascii) (r : string) :
  markerless r = true -> bold_re (String k r) = None.
Proof.
  intros Hr. unfold bold_re, wrap, alt, span_at.
  rewrite (prefix_double "*"%char k r eq_refl Hr).
  now rewrite (prefix_double "_"%char k r eq_refl Hr).
Qed.

Lemma span_at_single_none (a k : ascii) (r : string) :
  marker a = true -> markerless r = true ->
  span_at (String a EmptyString) (String a EmptyString) (String k r) = None.
Proof.
  intros Ha Hr. unfold span_at.
  destruct (String.prefix (String a EmptyString) (String k r)); [|reflexivity].
  cbn [String.length drop]. now rewrite (lazy_dots_none a EmptyString r Ha Hr).
Qed.

Lemma em_re_lone (k : ascii) (r : string) :
  markerless r = true -> em_re (String k r) = None.
Proof.
  intros Hr. unfold em_re, wrap, alt.
  rewrite (span_at_single_none "*"%char k r eq_refl Hr).
  now rewrite (span_at_single_none "_"%char k r eq_refl Hr).
Qed.

Lemma take_while_all (p : ascii -> bool) (s : string) :
  forallb p s = true -> take_while p s = s.
Proof.
  induction s as [|c s IH]; cbn; [reflexivity|].
  intros H. apply andb_prop in H as [Hc Hs]. now rewrite Hc, (IH Hs).
Qed.

Lemma markerless_no_tick (s : string) :
  markerless s = true -> forallb not_tick s = true.
Proof.
  unfold markerless. induction s as [|c s IH]; cbn; [reflexivity|].
  intros H. apply andb_prop in H as [Hc Hs]. rewrite (IH Hs), andb_true_r.
  unfold marker in Hc. unfold not_tick.
  destruct (Ascii.eqb c tick); [|reflexivity].
  now rewrite orb_true_r in Hc.
Qed.

Lemma code_re_lone (k : ascii) (r : string) :
  markerless r = true -> code_re (String k r) = None.
Proof.
  intros Hr. unfold code_re, wrap, code_at.
  destruct (Ascii.eqb k tick); [|reflexivity].
  rewrite (take_while_all _ r (markerless_no_tick r Hr)).
  rewrite (drop_while_all _ r (markerless_no_tick r Hr)).
  now destruct r.
Qed.

Lemma replace_lone (m : matcher) (pre post : string) (k : ascii) :
  quiet m -> markerless pre = true -> markerless post = true ->
  m (String k post) = None ->
  replace_from m 0 (pre ++ String k post) = pre ++ String k post.
Proof.
  intros Hq Hpre Hpost Hk.
  rewrite (replace_from_append_plain m pre _ Hq Hpre).
  cbn [replace_from]. rewrite Hk.
  now rewrite (replace_from_plain m post Hq Hpost).
Qed.

Lemma inline_lone (pre post : string) (k : ascii) :
  markerless pre = true -> markerless post = true ->
  inline (pre ++ String k post) = pre ++ String k post.
Proof.
  intros Hpre Hpost. unfold inline, replace_all.
  rewrite (replace_lone bold_re pre post k bold_re_quiet Hpre Hpost
             (bold_re_lone k post Hpost)).
  rewrite (replace_lone em_re pre post k em_re_quiet Hpre Hpost
             (em_re_lone k post Hpost)).
  exact (replace_lone code_re pre post k code_re_quiet Hpre Hpost
           (code_re_lone k post Hpost)).
Qed.



(** ** Emphasis and code spans *)

Lemma emph_cases (k : ascii) :
  emph_marker k = true -> k = "*"%char \/ k = "_"%char.
Proof.
  unfold emph_marker. intros H. apply orb_prop in H as [H|H];
    apply Ascii.eqb_eq in H; auto.
Qed.

Lemma emph_is_marker (k : ascii) : emph_marker k = true -> marker k = true.
Proof. intros H. destruct (emph_cases k H); subst; reflexivity. Qed.

Lemma span_text_head (c : ascii) (x : string) :
  span_text (String c x) = true -> marker c = false /\ span_text x = true.
Proof.
  unfold span_text. cbn [forallb]. intros H.
  apply andb_prop in H as [Hc Hx]. apply andb_prop in Hc as [Hm _].
  now apply negb_true_iff in Hm.
Qed.

Lemma span_at_double_open (a k : ascii) (x post : string) :
  marker a = true -> span_text x = true -> markerless post = true ->
  span_at (String a (String a EmptyString)) (String a (String a EmptyString))
    (String k (x ++ String k post))
  = None.
Proof.
  intros Ha Hx Hpost. unfold span_at.
  destruct x as [|c x].
  - cbn [append].
    destruct (String.prefix (String a (String a EmptyString))
                (String k (String k post))); [|reflexivity].
    cbn [String.length drop].
    now rewrite (lazy_dots_none a (String a EmptyString) post Ha Hpost).
  - destruct (span_text_head c x Hx) as [Hc _].
    cbn [append String.prefix].
    destruct (ascii_dec a k); [|reflexivity].
    destruct (ascii_dec a c) as [E|_]; [|reflexivity].
    subst c. congruence.
Qed.

Lemma bold_re_open_none (k : ascii) (x post : string) :
  span_text x = true -> markerless post = true ->
  bold_re (String k (x ++ String k post)) = None.
Proof.
  intros Hx Hpost. unfold bold_re, wrap, alt.
  rewrite (span_at_double_open "*"%char k x post eq_refl Hx Hpost).
  now rewrite (span_at_double_open "_"%char k x post eq_refl Hx Hpost).
Qed.

Lemma em_re_span (k : ascii) (x post : string) :
  emph_marker k = true -> span_text x = true ->
  em_re (String k (x ++ String k EmptyString) ++ post)
  = Some ("<em>" ++ x ++ "</em>",
          String.length (String k (x ++ String k EmptyString))).
Proof.
  intros Hk Hx. unfold em_re, wrap, alt.
  replace (String k (x ++ String k EmptyString) ++ post)
    with (String k EmptyString ++ x ++ String k EmptyString ++ post)
    by (cbn [append]; now rewrite append_assoc).
  destruct (emph_cases k Hk); subst k.
  - now rewrite (span_at_found "*" "*" EmptyString EmptyString x post
                   eq_refl Hx).
  - assert (N : span_at "*" "*" ("_" ++ x ++ "_" ++ post) = None)
      by reflexivity.
    rewrite N.
    now rewrite (span_at_found "_" "_" EmptyString EmptyString x post
                   eq_refl Hx).
Qed.

(** X3. A span [*x*] or [_x_] whose text has no marker and no line
    terminator, between text without markers, becomes [<em>x</em>]; the
    bold replacement before it and the code replacement after it leave
    the line alone. *)
Theorem emphasis_span (k : ascii) (pre x post : string) :
  emph_marker k = true ->
  markerless pre = true -> span_text x = true -> markerless post = true ->
  inline (pre ++ String k (x ++ String k post))
  = pre ++ "<em>" ++ x ++ "</em>" ++ post.
Proof.
  intros Hk Hpre Hx Hpost. unfold inline, replace_all.
  pose proof (span_text_markerless x Hx) as Hxm.
  assert (Hbold : replace_from bold_re 0 (pre ++ String k (x ++ String k post))
                  = pre ++ String k (x ++ String k post)).
  { rewrite (replace_from_append_plain bold_re pre _ bold_re_quiet Hpre).
    cbn [replace_from]. rewrite (bold_re_open_none k x post Hx Hpost).
    rewrite (replace_from_append_plain bold_re x _ bold_re_quiet Hxm).
    cbn [replace_from]. rewrite (bold_re_lone k post Hpost).
    now rewrite (replace_from_plain bold_re post bold_re_quiet Hpost). }
  rewrite Hbold.
  replace (pre ++ String k (x ++ String k post))
    with (pre ++ String k (x ++ String k EmptyString) ++ post)
    by (cbn [append]; now rewrite append_assoc).
  rewrite (replace_span em_re pre (String k (x ++ String k EmptyString)) post
             ("<em>" ++ x ++ "</em>") em_re_quiet Hpre Hpost);
    [| discriminate | exact (em_re_span k x post Hk Hx)].
  assert (Hall : markerless (pre ++ ("<em>" ++ x ++ "</em>") ++ post) = true).
  { rewrite !markerless_append, Hpre, Hpost, Hxm. reflexivity. }
  rewrite (replace_from_plain code_re _ code_re_quiet Hall).
  now rewrite !append_assoc.
Qed.

Lemma emphasis_span_witness :
  inline "a *very* good day" = "a <em>very</em> good day"
  /\ inline "a _very_ good day" = "a <em>very</em> good day".
Proof.
  split.
  - exact (emphasis_span "*"%char "a " "very" " good day"
             eq_refl eq_refl eq_refl eq_refl).
  - exact (emphasis_span "_"%char "a " "very" " good day"
             eq_refl eq_refl eq_refl eq_refl).
Defined.

Lemma emph_head_none (c : ascii) (r : string) :
  emph_marker c = false ->
  bold_re (String c r) = None /\ em_re (String c r) = None.
Proof.
  intros Hc. unfold emph_marker in Hc. apply orb_false_elim in Hc as [H1 H2].
  apply Ascii.eqb_neq in H1. apply Ascii.eqb_neq in H2.
  unfold bold_re, em_re, wrap, alt, span_at.
  rewrite !prefix_head by (intros E; symmetry in E; contradiction).
  split; reflexivity.
Qed.

Lemma markerless_no_emph (s : string) :
  markerless s = true -> no_emph s = true.
Proof.
  unfold markerless, no_emph. induction s as [|c s IH]; cbn; [reflexivity|].
  intros H. apply andb_prop in H as [Hc Hs]. rewrite (IH Hs), andb_true_r.
  unfold marker in Hc. unfold emph_marker.
  destruct (Ascii.eqb c "*"), (Ascii.eqb c "_"); cbn in *; congruence.
Qed.

Lemma no_emph_append (a b : string) :
  no_emph (a ++ b) = no_emph a && no_emph b.
Proof. apply forallb_append. Qed.

Lemma take_while_append (p : ascii -> bool) (x : string) (c : ascii)
  (r : string) :
  forallb p x = true -> p c = false ->
  take_while p (x ++ String c r) = x
  /\ drop_while p (x ++ String c r) = String c r.
Proof.
  intros Hx Hc. induction x as [|d x IH]; cbn.
  - now rewrite Hc.
  - cbn in Hx. apply andb_prop in Hx as [Hd Hx]. rewrite Hd.
    destruct (IH Hx) as [-> ->]. now split.
Qed.

Lemma code_re_span (x post : string) :
  markerless x = true -> x <> EmptyString ->
  code_re (String tick (x ++ String tick EmptyString) ++ post)
  = Some (code_open ++ x ++ "</code>",
          String.length (String tick (x ++ String tick EmptyString))).
Proof.
  intros Hx Hne. unfold code_re, wrap, code_at.
  cbn [append]. rewrite Ascii.eqb_refl, append_assoc. cbn [append].
  destruct (take_while_append not_tick x tick post
              (markerless_no_tick x Hx) eq_refl) as [-> ->].
  destruct x as [|c x]; [congruence|].
  cbn [String.length append]. rewrite length_append. cbn [String.length].
  repeat f_equal. lia.
Qed.

(** X4. A span between two backticks whose text is not empty and has no
    marker, between text without markers, becomes a [code] element; the
    bold and emphasis replacements before it leave the line alone. *)
Theorem code_span (pre x post : string) :
  markerless pre = true -> markerless x = true -> x <> EmptyString ->
  markerless post = true ->
  inline (pre ++ String tick (x ++ String tick post))
  = pre ++ code_open ++ x ++ "</code>" ++ post.
Proof.
  intros Hpre Hx Hne Hpost. unfold inline, replace_all.
  assert (Hno : no_emph (pre ++ String tick (x ++ String tick post)) = true).
  { rewrite no_emph_append. cbn [no_emph forallb].
    fold (no_emph (x ++ String tick post)). rewrite no_emph_append.
    cbn [no_emph forallb]. fold (no_emph post).
    rewrite !markerless_no_emph by assumption. reflexivity. }
  rewrite (replace_from_untriggered bold_re emph_marker _ eq_refl
             (fun c r H => proj1 (emph_head_none c r H)) Hno).
  rewrite (replace_from_untriggered em_re emph_marker _ eq_refl
             (fun c r H => proj2 (emph_head_none c r H)) Hno).
  replace (pre ++ String tick (x ++ String tick post))
    with (pre ++ String tick (x ++ String tick EmptyString) ++ post)
    by (cbn [append]; now rewrite append_assoc).
  rewrite (replace_span code_re pre (String tick (x ++ String tick EmptyString))
             post (code_open ++ x ++ "</code>") code_re_quiet Hpre Hpost);
    [| discriminate | exact (code_re_span x post Hx Hne)].
  now rewrite !append_assoc.
Qed.

Lemma code_span_witness :
  inline "run `npm test` first"
  = "run " ++ code_open ++ "npm test" ++ "</code>" ++ " first".
Proof.
  exact (code_span "run " "npm test" " first" eq_refl eq_refl
           ltac:(discriminate) eq_refl).
Defined.

(** ** Lists *)

Lemma flushPara_listType (st : RenderState) :
  listType (flushPara st) = listType st.
Proof. unfold flushPara. now destruct (paraBuffer st). Qed.

Lemma flushPara_empty (st : RenderState) :
  paraBuffer st = EmptyString -> flushPara st = st.
Proof. intros H. unfold flushPara. now rewrite H. Qed.

Lemma list_line_spec (t : ListType) (item : string) (st : RenderState) :
  list_line t item st
  = {| html := (html (flushPara st) ++ list_switch (listType st) t)
               ++ li item;
       listType := Some t;
       paraBuffer := EmptyString |}.
Proof.
  unfold list_line, append_html, list_switch, li.
  rewrite flushPara_listType.
  destruct (listType st) as [t'|] eqn:E.
  - destruct (ListType_eqb t' t) eqn:Et.
    + rewrite flushPara_listType, E, flushPara_buffer, append_nil_r.
      f_equal. destruct t', t; try discriminate; reflexivity.
    + unfold flushList. rewrite flushPara_listType, E.
      cbn [html listType paraBuffer].
      now rewrite flushPara_buffer, !append_assoc.
  - unfold flushList. rewrite flushPara_listType, E.
    cbn [html listType paraBuffer]. now rewrite flushPara_buffer.
Qed.

Lemma render_line_item (t : ListType) (rawLine item : string)
  (st : RenderState) :
  list_item t rawLine = Some item ->
  render_line st rawLine = list_line t item st.
Proof.
  unfold list_item, render_line. intros H.
  destruct t; destruct (match_ol (inline rawLine)) as [i|];
    try discriminate; try (injection H as ->; reflexivity).
  now rewrite H.
Qed.

Lemma ListType_eqb_refl (t : ListType) : ListType_eqb t t = true.
Proof. now destruct t. Qed.

(** A run of list lines of one type: the first one opens the list (after
    the paragraph and the list that were open), the others add their
    items. *)
Lemma render_list_run (t : ListType) (raws items : list string) :
  forall st,
    map (list_item t) raws = map Some items -> raws <> [] ->
    render_lines st raws
    = {| html := (html (flushPara st) ++ list_switch (listType st) t)
                 ++ items_html items;
         listType := Some t;
         paraBuffer := EmptyString |}.
Proof.
  revert items. induction raws as [|raw raws IH]; intros items st H Hne;
    [congruence|].
  destruct items as [|item items]; [discriminate H|].
  cbn [map] in H. injection H as Hraw Hrest.
  cbn [render_lines fold_left]. fold (render_lines (render_line st raw) raws).
  rewrite (render_line_item t raw item st Hraw), list_line_spec.
  destruct raws as [|raw' raws].
  - destruct items; [|discriminate Hrest].
    cbn [render_lines fold_left items_html]. now rewrite append_nil_r.
  - rewrite (IH items _ Hrest) by discriminate.
    cbn [html listType paraBuffer flushPara list_switch items_html].
    rewrite ListType_eqb_refl, append_nil_r. now rewrite !append_assoc.
Qed.

Lemma close_list (h : string) (t : ListType) :
  html (flushList (flushPara {| html := h; listType := Some t;
                                paraBuffer := EmptyString |}))
  = h ++ "</" ++ tag t ++ ">".
Proof. reflexivity. Qed.

(** X5. One or more consecutive list lines of the same type, alone in a text,
    render as one list block with one item per line, in the order of the
    lines. *)
Theorem list_lines_make_one_block (t : ListType) (raw : string)
  (raws items : list string) :
  List.forallb no_LF (raw :: raws) = true ->
  map (list_item t) (raw :: raws) = map Some items ->
  renderMarkdown (unlines (raw :: raws)) = list_block t items.
Proof.
  intros Hlf Hitems.
  rewrite (renderMarkdown_unlines raw raws Hlf).
  rewrite (render_list_run t (raw :: raws) items render_init Hitems)
    by discriminate.
  cbv [flushPara flushList render_init paraBuffer html listType list_switch].
  unfold list_block. cbn [append]. now rewrite !append_assoc.
Qed.

Lemma list_lines_make_one_block_witness :
  renderMarkdown (unlines ["- milk"; "* eggs"; "  - flour"])
  = list_block ul ["milk"; "eggs"; "flour"].
Proof.
  exact (list_lines_make_one_block ul "- milk" ["* eggs"; "  - flour"]
           ["milk"; "eggs"; "flour"] eq_refl eq_refl).
Defined.

Lemma span_text_no_terminator (s : string) :
  span_text s = true ->
  forallb (fun c => negb (is_line_terminator c)) s = true.
Proof.
  unfold span_text. induction s as [|c s IH]; cbn; [reflexivity|].
  intros H. apply andb_prop in H as [Hc Hs]. apply andb_prop in Hc as [_ Ht].
  now rewrite Ht, (IH Hs).
Qed.

Lemma bullet_not_space_or_digit (b : ascii) :
  is_bullet b = true -> is_space b = false /\ is_digit b = false.
Proof.
  unfold is_bullet. intros H.
  apply orb_prop in H as [H|H]; apply Ascii.eqb_eq in H; subst b;
    split; reflexivity.
Qed.

Lemma drop_spaces (indent : string) (c : ascii) (r : string) :
  is_blank indent = true -> is_space c = false ->
  drop_while is_space (indent ++ String c r) = String c r.
Proof.
  intros Hi Hc. exact (proj2 (take_while_append is_space indent c r Hi Hc)).
Qed.

Lemma match_bullet (indent : string) (b : ascii) (r : string) :
  is_blank indent = true -> is_bullet b = true ->
  match_ol (indent ++ bullet_line b r) = None
  /\ match_ul (indent ++ bullet_line b r)
     = Some (take_while (fun c => negb (is_line_terminator c)) r).
Proof.
  intros Hi Hb. destruct (bullet_not_space_or_digit b Hb) as [Hsp Hdg].
  unfold match_ol, match_ul, bullet_line.
  rewrite (drop_spaces indent b _ Hi Hsp). cbn [take_while]. rewrite Hdg.
  split; [reflexivity|].
  unfold is_bullet in Hb. now rewrite Hb.
Qed.

(** X6. A line that starts, after white space, with a hyphen and a space
    is an item of an unordered list, never of an ordered one, and the
    item is the rest of the line after the inline replacements, up to its
    first line terminator.  With a star in the place of the hyphen the
    same holds when the rest has no marker and no line terminator, and
    the item is then the rest itself; a second star in the rest can take
    the first one into an emphasis span, as in [* a * b], which is no
    list line. *)
Theorem bullet_line_is_item (indent : string) (b : ascii) (rest : string) :
  is_blank indent = true ->
  (list_item ul (indent ++ bullet_line "-" rest)
   = Some (take_while (fun c => negb (is_line_terminator c)) (inline rest))
   /\ list_item ol (indent ++ bullet_line "-" rest) = None)
  /\ (is_bullet b = true -> span_text rest = true ->
      list_item ul (indent ++ bullet_line b rest) = Some rest
      /\ list_item ol (indent ++ bullet_line b rest) = None)
  /\ list_item ul "* a * b" = None.
Proof.
  intros Hi. split; [|split; [|reflexivity]].
  - assert (Hin : inline (indent ++ bullet_line "-" rest)
                  = indent ++ bullet_line "-" (inline rest)).
    { unfold bullet_line.
      change (indent ++ String "-" (String " " rest))
        with (indent ++ "- " ++ rest).
      rewrite <- append_assoc, inline_append_plain, append_assoc;
        [reflexivity|].
      now rewrite markerless_append, (blank_markerless indent Hi). }
    destruct (match_bullet indent "-" (inline rest) Hi eq_refl) as [Hol Hul].
    unfold list_item. rewrite Hin, Hol, Hul. split; reflexivity.
  - intros Hb Hitem.
    assert (Hin : inline (indent ++ bullet_line b rest)
                  = indent ++ bullet_line b rest).
    { unfold bullet_line. apply inline_lone.
      - now apply blank_markerless.
      - unfold markerless. cbn [forallb].
        apply (span_text_markerless rest Hitem). }
    destruct (match_bullet indent b rest Hi Hb) as [Hol Hul].
    unfold list_item. rewrite Hin, Hol, Hul.
    now rewrite (take_while_all _ rest (span_text_no_terminator rest Hitem)).
Qed.

Lemma bullet_line_is_item_witness :
  list_item ul ("   * call the bank") = Some "call the bank"
  /\ list_item ul (" - buy *two* pens") = Some "buy <em>two</em> pens".
Proof.
  destruct (bullet_line_is_item "   " "*"%char "call the bank" eq_refl)
    as (_ & Hstar & _).
  destruct (bullet_line_is_item " " "-"%char "buy *two* pens" eq_refl)
    as ((Hdash & _) & _).
  split; [exact (proj1 (Hstar eq_refl eq_refl)) | exact Hdash].
Defined.

Lemma digit_facts (d : ascii) :
  is_digit d = true -> is_space d = false /\ marker d = false.
Proof.
  destruct d as [[] [] [] [] [] [] [] []]; vm_compute; intros H;
    (discriminate H || (split; reflexivity)).
Qed.

Lemma digits_markerless (ds : string) :
  forallb is_digit ds = true -> markerless ds = true.
Proof.
  unfold markerless. induction ds as [|d ds IH]; cbn; [reflexivity|].
  intros H. apply andb_prop in H as [Hd Hds].
  destruct (digit_facts d Hd) as [_ ->]. now rewrite (IH Hds).
Qed.

Lemma match_numbered (indent digits r : string) :
  is_blank indent = true ->
  forallb is_digit digits = true -> digits <> EmptyString ->
  match_ol (indent ++ numbered_line digits r)
  = Some (take_while (fun c => negb (is_line_terminator c)) r).
Proof.
  intros Hi Hds Hne. unfold match_ol, numbered_line.
  destruct digits as [|d ds]; [congruence|].
  cbn [forallb] in Hds. pose proof Hds as Hds'.
  apply andb_prop in Hds' as [Hd _].
  destruct (digit_facts d Hd) as [Hsp _].
  change (indent ++ String d ds ++ ". " ++ r)
    with (indent ++ String d (ds ++ ". " ++ r)).
  rewrite (drop_spaces indent d _ Hi Hsp).
  change (String d (ds ++ ". " ++ r))
    with (String d ds ++ String "."%char (String " "%char r)).
  destruct (take_while_append is_digit (String d ds) "."%char
              (String " "%char r) Hds eq_refl) as [-> ->].
  reflexivity.
Qed.

(** X7. A line that starts, after white space, with digits, a period and
    a space is an item of an ordered list; the number is not kept, and
    the item is the rest of the line after the inline replacements, up to
    its first line terminator (a carriage return cuts it).  When the rest
    has no marker and no line terminator the item is the rest itself. *)
Theorem numbered_line_is_item (indent digits rest : string) :
  is_blank indent = true ->
  forallb is_digit digits = true -> digits <> EmptyString ->
  list_item ol (indent ++ numbered_line digits rest)
  = Some (take_while (fun c => negb (is_line_terminator c)) (inline rest))
  /\ (span_text rest = true ->
      list_item ol (indent ++ numbered_line digits rest) = Some rest).
Proof.
  intros Hi Hds Hne.
  assert (Hin : inline (indent ++ numbered_line digits rest)
                = indent ++ numbered_line digits (inline rest)).
  { unfold numbered_line.
    replace (indent ++ digits ++ ". " ++ rest)
      with ((indent ++ digits ++ ". ") ++ rest)
      by now rewrite !append_assoc.
    rewrite inline_append_plain; [now rewrite !append_assoc|].
    rewrite !markerless_append, (blank_markerless indent Hi),
      (digits_markerless digits Hds). reflexivity. }
  assert (E : list_item ol (indent ++ numbered_line digits rest)
              = Some (take_while (fun c => negb (is_line_terminator c))
                        (inline rest))).
  { unfold list_item. rewrite Hin.
    exact (match_numbered indent digits (inline rest) Hi Hds Hne). }
  split; [exact E|]. intros Hrest. rewrite E.
  rewrite (inline_plain rest (span_text_markerless rest Hrest)).
  now rewrite (take_while_all _ rest (span_text_no_terminator rest Hrest)).
Qed.

Lemma numbered_line_is_item_witness :
  list_item ol " 10. ship it" = Some "ship it"
  /\ list_item ol ("1. foo" ++ String CR EmptyString) = Some "foo".
Proof.
  destruct (numbered_line_is_item " " "10" "ship it" eq_refl eq_refl
              ltac:(discriminate)) as [_ H1].
  destruct (numbered_line_is_item EmptyString "1" ("foo" ++ String CR EmptyString)
              eq_refl eq_refl ltac:(discriminate)) as [H2 _].
  split; [exact (H1 eq_refl) | exact H2].
Defined.

(** ** Blocks that follow one another *)

Lemma append_nil_l (s : string) : EmptyString ++ s = s.
Proof. reflexivity. Qed.

Lemma forallb_app_true {A} (f : A -> bool) (a b : list A) :
  List.forallb f (a ++ b)%list = true ->
  List.forallb f a = true /\ List.forallb f b = true.
Proof. rewrite List.forallb_app. apply andb_prop. Qed.

Lemma flushList_buffer (st : RenderState) :
  paraBuffer (flushList st) = paraBuffer st.
Proof. unfold flushList. now destruct (listType st). Qed.

(** A run of plain lines from a state without an open paragraph: the
    open list, if any, is closed, and the lines are in the buffer. *)
Lemma render_plain_run (st : RenderState) (l : string) (ls : list string) :
  paraBuffer st = EmptyString ->
  List.forallb plain_line (l :: ls) = true ->
  render_lines st (l :: ls)
  = {| html := html (flushList st);
       listType := None;
       paraBuffer := String.concat "<br/>" (l :: ls) |}.
Proof.
  intros Hbuf H. cbn [List.forallb] in H. apply andb_prop in H as [Hl Hls].
  destruct (plain_line_inv l Hl) as (Hm & Hb & Hol & Hul).
  cbn [render_lines fold_left]. fold (render_lines (render_line st l) ls).
  assert (E : render_line st l
              = {| html := html (flushList st); listType := None;
                   paraBuffer := l |}).
  { unfold render_line. rewrite (inline_plain l Hm), Hol, Hul, Hb.
    now rewrite flushList_type, flushList_buffer, Hbuf. }
  rewrite E. destruct l as [|c l]; [discriminate Hb|].
  rewrite render_lines_plain;
    [reflexivity | reflexivity | discriminate | exact Hls].
Qed.

Lemma concat_lines_nonempty (l : string) (ls : list string) :
  l <> EmptyString -> String.concat "<br/>" (l :: ls) <> EmptyString.
Proof.
  intros Hl. destruct l as [|c l]; [congruence|].
  destruct ls; cbn [String.concat append]; discriminate.
Qed.

Lemma plain_line_nonempty (l : string) :
  plain_line l = true -> l <> EmptyString.
Proof. intros H ->. discriminate H. Qed.

Lemma flush_paragraph (h buf : string) :
  buf <> EmptyString ->
  flushPara {| html := h; listType := None; paraBuffer := buf |}
  = {| html := h ++ p_open ++ buf ++ "</p>"; listType := None;
       paraBuffer := EmptyString |}.
Proof. intros H. unfold flushPara. cbn. now destruct buf. Qed.

(** X8. List lines of one type followed by list lines of the other type
    render as two list blocks, the first closed before the second is
    opened. *)
Theorem list_type_change_closes_list (t1 t2 : ListType)
  (raw1 raw2 : string) (raws1 raws2 items1 items2 : list string) :
  t1 <> t2 ->
  List.forallb no_LF ((raw1 :: raws1) ++ raw2 :: raws2) = true ->
  map (list_item t1) (raw1 :: raws1) = map Some items1 ->
  map (list_item t2) (raw2 :: raws2) = map Some items2 ->
  renderMarkdown (unlines ((raw1 :: raws1) ++ raw2 :: raws2))
  = list_block t1 items1 ++ list_block t2 items2.
Proof.
  intros Hne Hlf H1 H2.
  change ((raw1 :: raws1) ++ raw2 :: raws2)%list
    with (raw1 :: (raws1 ++ raw2 :: raws2))%list in *.
  rewrite (renderMarkdown_unlines _ _ Hlf).
  change (raw1 :: (raws1 ++ raw2 :: raws2))%list
    with ((raw1 :: raws1) ++ raw2 :: raws2)%list.
  rewrite render_lines_app.
  rewrite (render_list_run t1 _ items1 render_init H1) by discriminate.
  rewrite (render_list_run t2 _ items2 _ H2) by discriminate.
  cbv [flushPara flushList render_init paraBuffer html listType list_switch].
  assert (E : ListType_eqb t1 t2 = false)
    by (destruct t1, t2; try reflexivity; congruence).
  rewrite E. unfold list_block. now rewrite !append_assoc, !append_nil_l.
Qed.

Lemma list_type_change_closes_list_witness :
  renderMarkdown (unlines ["- tea"; "- milk"; "1. boil"; "2. pour"])
  = list_block ul ["tea"; "milk"] ++ list_block ol ["boil"; "pour"].
Proof.
  exact (list_type_change_closes_list ul ol "- tea" "1. boil"
           ["- milk"] ["2. pour"] ["tea"; "milk"] ["boil"; "pour"]
           ltac:(discriminate) eq_refl eq_refl eq_refl).
Defined.

(** X9. Plain lines, then list lines, then plain lines, with no blank line
    between them, render as a paragraph, a list and a paragraph: the
    first list line closes the paragraph, and the first line that is not
    a list line closes the list. *)
Theorem paragraph_list_paragraph (t : ListType) (p raw q : string)
  (ps raws qs items : list string) :
  List.forallb no_LF ((p :: ps) ++ (raw :: raws) ++ q :: qs) = true ->
  List.forallb plain_line (p :: ps) = true ->
  map (list_item t) (raw :: raws) = map Some items ->
  List.forallb plain_line (q :: qs) = true ->
  renderMarkdown (unlines ((p :: ps) ++ (raw :: raws) ++ q :: qs))
  = paragraph (p :: ps) ++ list_block t items ++ paragraph (q :: qs).
Proof.
  intros Hlf Hp Hitems Hq.
  change ((p :: ps) ++ (raw :: raws) ++ q :: qs)%list
    with (p :: (ps ++ (raw :: raws) ++ q :: qs))%list in *.
  rewrite (renderMarkdown_unlines _ _ Hlf).
  change (p :: (ps ++ (raw :: raws) ++ q :: qs))%list
    with ((p :: ps) ++ (raw :: raws) ++ q :: qs)%list.
  rewrite !render_lines_app.
  rewrite (render_plain_run render_init p ps eq_refl Hp).
  rewrite (render_list_run t _ items _ Hitems) by discriminate.
  cbn [listType html paraBuffer].
  rewrite flush_paragraph
    by (apply concat_lines_nonempty, plain_line_nonempty;
        cbn in Hp; now apply andb_prop in Hp as [Hp _]).
  rewrite (render_plain_run
             {| html := _; listType := _; paraBuffer := EmptyString |}
             q qs eq_refl Hq).
  rewrite flush_paragraph
    by (apply concat_lines_nonempty, plain_line_nonempty;
        cbn in Hq; now apply andb_prop in Hq as [Hq _]).
  cbv [flushList render_init html listType paraBuffer list_switch].
  unfold paragraph, list_block. now rewrite !append_assoc, !append_nil_l.
Qed.

Lemma paragraph_list_paragraph_witness :
  renderMarkdown (unlines ["To buy:"; "- tea"; "- milk"; "Thanks!"])
  = paragraph ["To buy:"] ++ list_block ul ["tea"; "milk"]
    ++ paragraph ["Thanks!"].
Proof.
  exact (paragraph_list_paragraph ul "To buy:" "- tea" "Thanks!"
           [] ["- milk"] [] ["tea"; "milk"]
           eq_refl eq_refl eq_refl eq_refl).
Defined.

(** X10. Two runs of plain lines with a blank line between them render as two
    paragraph blocks; inside each the lines are joined by the line
    break. *)
Theorem blank_line_separates_paragraphs (p blank q : string)
  (ps qs : list string) :
  List.forallb no_LF ((p :: ps) ++ blank :: q :: qs) = true ->
  List.forallb plain_line (p :: ps) = true ->
  is_blank blank = true ->
  List.forallb plain_line (q :: qs) = true ->
  renderMarkdown (unlines ((p :: ps) ++ blank :: q :: qs))
  = paragraph (p :: ps) ++ paragraph (q :: qs).
Proof.
  intros Hlf Hp Hblank Hq.
  change ((p :: ps) ++ blank :: q :: qs)%list
    with (p :: (ps ++ blank :: q :: qs))%list in *.
  rewrite (renderMarkdown_unlines _ _ Hlf).
  change (p :: (ps ++ blank :: q :: qs))%list
    with ((p :: ps) ++ [blank] ++ q :: qs)%list.
  rewrite !render_lines_app.
  rewrite (render_plain_run render_init p ps eq_refl Hp).
  assert (Eb : forall h buf,
             render_lines {| html := h; listType := None; paraBuffer := buf |}
               [blank]
             = flushPara {| html := h; listType := None; paraBuffer := buf |}).
  { intros h buf. cbn [render_lines fold_left]. unfold render_line.
    rewrite (inline_plain blank (blank_markerless blank Hblank)).
    destruct (blank_not_list blank Hblank) as [-> ->]. now rewrite Hblank. }
  rewrite Eb.
  rewrite flush_paragraph
    by (apply concat_lines_nonempty, plain_line_nonempty;
        cbn in Hp; now apply andb_prop in Hp as [Hp _]).
  rewrite (render_plain_run
             {| html := _; listType := _; paraBuffer := EmptyString |}
             q qs eq_refl Hq).
  rewrite flush_paragraph
    by (apply concat_lines_nonempty, plain_line_nonempty;
        cbn in Hq; now apply andb_prop in Hq as [Hq _]).
  cbv [flushList render_init html listType paraBuffer].
  unfold paragraph. now rewrite !append_assoc, !append_nil_l.
Qed.

Lemma blank_line_separates_paragraphs_witness :
  renderMarkdown (unlines ["Dear all,"; "welcome."; "   "; "Yours"])
  = paragraph ["Dear all,"; "welcome."] ++ paragraph ["Yours"].
Proof.
  exact (blank_line_separates_paragraphs "Dear all," "   " "Yours"
           ["welcome."] [] eq_refl eq_refl eq_refl eq_refl).
Defined.

(** ** The markup only grows *)

Lemma render_line_grows (st : RenderState) (rawLine : string) :
  exists tail, html (render_line st rawLine) = html st ++ tail.
Proof.
  assert (Hp : forall s, exists tail, html (flushPara s) = html s ++ tail).
  { intros s. unfold flushPara. destruct (paraBuffer s).
    - exists EmptyString. now rewrite append_nil_r.
    - eexists. reflexivity. }
  assert (Hl : forall s, exists tail, html (flushList s) = html s ++ tail).
  { intros s. unfold flushList. destruct (listType s).
    - eexists. reflexivity.
    - exists EmptyString. now rewrite append_nil_r. }
  assert (Hi : forall t item s,
             exists tail, html (list_line t item s) = html s ++ tail).
  { intros t item s. rewrite list_line_spec. cbn [html].
    destruct (Hp s) as [tail ->]. eexists. now rewrite !append_assoc. }
  unfold render_line.
  destruct (match_ol (inline rawLine)); [apply Hi|].
  destruct (match_ul (inline rawLine)); [apply Hi|].
  destruct (is_blank (inline rawLine)).
  - destruct (Hl st) as [t1 E1]. destruct (Hp (flushList st)) as [t2 E2].
    exists (t1 ++ t2). now rewrite E2, E1, append_assoc.
  - cbn [html]. apply Hl.
Qed.

(** X11. The pass over the lines never takes back markup it has produced: the
    markup after more lines starts with the markup before them. *)
Theorem markup_only_grows (st : RenderState) (lines : list string) :
  exists tail, html (render_lines st lines) = html st ++ tail.
Proof.
  revert st. induction lines as [|l ls IH]; intros st.
  - exists EmptyString. now rewrite append_nil_r.
  - cbn [render_lines fold_left]. fold (render_lines (render_line st l) ls).
    destruct (IH (render_line st l)) as [t2 E2].
    destruct (render_line_grows st l) as [t1 E1].
    exists (t1 ++ t2). now rewrite E2, E1, append_assoc.
Qed.

End MarkdownMore.

(* ===================================================================== *)
(** * More about the session controller *)
(* ===================================================================== *)

Module AppMore.
Import Str StrFacts App AppFacts.
Local Open Scope handler_scope.

(** ** Sending a message *)

(** X12. Without a store name, or with an empty one, sending a message does
    nothing: no turn is added, no query is made, no flag is set. *)
Theorem send_without_store_is_noop (svc : Service) (msg : string) (w : World) :
  activeRagStoreName (app w) = None
  \/ activeRagStoreName (app w) = Some EmptyString ->
  handleSendMessage svc msg w = (Ok tt, w).
Proof.
  intros [H|H]; unfold handleSendMessage; plumbing; cbn; now rewrite H.
Qed.

Lemma send_without_store_is_noop_witness :
  handleSendMessage (Sample.service "stores/one") "hello" Sample.fresh
  = (Ok tt, Sample.fresh).
Proof.
  exact (send_without_store_is_noop (Sample.service "stores/one") "hello"
           Sample.fresh (or_introl eq_refl)).
Defined.

Lemma effects_of_app {A} (m : M A) (w : World) (t : list Effect) :
  trace (exec m w) = (trace w ++ t)%list -> effects_of m w = t.
Proof.
  intros H. unfold effects_of. rewrite H.
  rewrite skipn_app, skipn_all, Nat.sub_diag. reflexivity.
Qed.

(** X13. With a store, a query that the service answers adds the turn of the
    user and one turn of the model with the text and the chunks of the
    answer, makes exactly one call of the service, and leaves the rest of
    the state (the status included) as it was, the loading flag
    cleared. *)
Theorem send_success_appends_answer
  (svc : Service) (msg store : string) (r : QueryResult) (w : World) :
  activeRagStoreName (app w) = Some store ->
  store <> EmptyString ->
  fileSearch svc store msg = Ok r ->
  outcome (handleSendMessage svc msg) w = Ok tt
  /\ app (exec (handleSendMessage svc msg) w)
     = with_isQueryLoading false
         (with_chatHistory
            (chatHistory (app w)
             ++ [mkMessage user [msg] None;
                 mkMessage model [text r] (resultChunks r)])%list
            (app w))
  /\ effects_of (handleSendMessage svc msg) w = [CallFileSearch store msg].
Proof.
  intros Hname Hne Hq. destruct store as [|c store]; [congruence|].
  split; [|split].
  - unfold handleSendMessage. plumbing. cbn. now rewrite Hname, Hq.
  - unfold handleSendMessage. plumbing. cbn. rewrite Hname, Hq. cbn.
    now rewrite <- app_assoc.
  - apply effects_of_app.
    unfold handleSendMessage. plumbing. cbn. now rewrite Hname, Hq.
Qed.

Lemma send_success_appends_answer_witness :
  chatHistory
    (app (exec (handleSendMessage (Sample.service "stores/one") "hello")
               Sample.chatting))
  = [mkMessage user ["hello"] None;
     mkMessage model ["It is on page 3."] None].
Proof.
  destruct (send_success_appends_answer (Sample.service "stores/one")
              "hello" "stores/one" (mkQuery "It is on page 3." None)
              Sample.chatting eq_refl ltac:(discriminate) eq_refl)
    as (_ & H & _).
  rewrite H. reflexivity.
Defined.

(** ** Ending the chat and closing the page *)

Lemma end_chat_app (svc : Service) (w : World) :
  outcome (handleEndChat svc) w = Ok tt
  /\ app (exec (handleEndChat svc) w)
     = with_status Welcome
         (with_files []
            (with_documentName EmptyString
               (with_chatHistory []
                  (with_activeRagStoreName None (app w))))).
Proof.
  unfold handleEndChat. plumbing. cbn.
  destruct (activeRagStoreName (app w)) as [[|c store]|]; cbn;
    try (split; reflexivity).
  destruct (deleteRagStore svc (String c store)) as [[]|e]; cbn;
    split; reflexivity.
Qed.

(** X14. Ending the chat returns normally and resets the session whatever the
    deletion of the store answers: no store name, empty history, empty
    display name, no files, welcome screen; the key flag and the messages
    are kept. *)
Theorem end_chat_resets (svc : Service) (w : World) :
  outcome (handleEndChat svc) w = Ok tt
  /\ app (exec (handleEndChat svc) w)
     = with_status Welcome
         (with_files []
            (with_documentName EmptyString
               (with_chatHistory []
                  (with_activeRagStoreName None (app w))))).
Proof. exact (end_chat_app svc w). Qed.

(** X15. The unload handler changes nothing in the state, and without a store
    name in the ref (or with an empty one) it makes no call. *)
Theorem unload_keeps_state (svc : Service) (w : World) :
  app (exec (handleUnload svc) w) = app w
  /\ (ragStoreNameRef (app w) = None
      \/ ragStoreNameRef (app w) = Some EmptyString ->
      handleUnload svc w = (Ok tt, w)).
Proof.
  split.
  - unfold handleUnload. plumbing. cbn.
    destruct (ragStoreNameRef (app w)) as [[|c store]|]; cbn;
      try reflexivity.
    destruct (deleteRagStore svc (String c store)) as [[]|e]; reflexivity.
  - intros [H|H]; unfold handleUnload; plumbing; cbn; now rewrite H.
Qed.

Lemma unload_keeps_state_witness :
  handleUnload (Sample.service "stores/one") Sample.fresh
  = (Ok tt, Sample.fresh).
Proof.
  exact (proj2 (unload_keeps_state (Sample.service "stores/one") Sample.fresh)
           (or_introl eq_refl)).
Defined.

(** ** The key *)

(** X16. Checking the key twice with the same answer of the host leaves the
    state the first check left. *)
Theorem checkApiKey_idempotent (host : Host) (w : World) :
  app (exec (checkApiKey host) (exec (checkApiKey host) w))
  = app (exec (checkApiKey host) w).
Proof.
  unfold checkApiKey.
  destruct (hasSelectedApiKey host) as [[b|e]|]; plumbing; reflexivity.
Qed.

(** X17. Selecting a key: without the capability [openSelectKey] the user is
    told so and the state stays as it is; when the dialog is rejected the
    state stays as it is; when the dialog closes normally the state is
    the one a check of the key leaves.  The handler returns normally in
    every case. *)
Theorem select_key_cases (host : Host) (w : World) :
  outcome (handleSelectKey host) w = Ok tt
  /\ match openSelectKey host with
     | None =>
         app (exec (handleSelectKey host) w) = app w
         /\ In (Alert "API key selection is not available in this environment.")
              (effects_of (handleSelectKey host) w)
     | Some (Throw _) => app (exec (handleSelectKey host) w) = app w
     | Some (Ok _) =>
         app (exec (handleSelectKey host) w)
         = app (exec (checkApiKey host) w)
     end.
Proof.
  unfold handleSelectKey.
  destruct (openSelectKey host) as [[[]|e]|].
  - unfold checkApiKey.
    destruct (hasSelectedApiKey host) as [[b|e]|]; plumbing;
      split; reflexivity.
  - plumbing. split; reflexivity.
  - split; [reflexivity|]. split; [reflexivity|].
    rewrite (effects_of_app
               (emit (Alert "API key selection is not available in this environment."))
               w
               [Alert "API key selection is not available in this environment."]
               eq_refl).
    now left.
Qed.

(** ** Starts that fail *)

(** X18. Without a selected key the start handler asks for one and throws
    [API Key is required.]; it calls nothing and changes nothing else. *)
Theorem start_without_key (svc : Service) (w : World) :
  isApiKeySelected (app w) = false ->
  handleUploadAndStartChat svc w
  = (Throw (JsError "API Key is required."),
     {| app := with_apiKeyError
                 (Some "Please select your Gemini API Key first.") (app w);
        trace := trace w |}).
Proof.
  intros Hkey. unfold handleUploadAndStartChat. plumbing. cbn.
  now rewrite Hkey.
Qed.

Lemma start_without_key_witness :
  outcome (handleUploadAndStartChat (Sample.service "stores/one"))
          (mkWorld initial_state [])
  = Throw (JsError "API Key is required.").
Proof.
  unfold outcome.
  now rewrite (start_without_key (Sample.service "stores/one")
                 (mkWorld initial_state []) eq_refl).
Defined.

(** X19. When the initialization of the service fails, the start handler
    shows the error screen with the message of the failure behind a fixed
    text, rethrows the error, and has called nothing but the
    initialization: no store is created and no file is uploaded.  The
    files, the key flag and the chat are as they were. *)
Theorem start_initialization_failure
  (svc : Service) (w : World) (e : JsValue) :
  isApiKeySelected (app w) = true ->
  files (app w) <> [] ->
  initialize svc = Throw e ->
  outcome (handleUploadAndStartChat svc) w = Throw e
  /\ app (exec (handleUploadAndStartChat svc) w)
     = with_status Error
         (with_error
            (Some (error_text
                     "Initialization failed. Please select a valid API Key." e))
            (with_apiKeyError None (app w)))
  /\ service_calls (effects_of (handleUploadAndStartChat svc) w)
     = [CallInitialize].
Proof.
  intros Hkey Hfiles Hinit.
  pose proof (start_init_fails svc w Hkey Hfiles e Hinit) as E.
  split; [|split].
  - unfold outcome. now rewrite E.
  - unfold exec. now rewrite E.
  - erewrite effects_of_app; [| unfold exec; rewrite E; reflexivity].
    reflexivity.
Qed.

Lemma start_initialization_failure_witness :
  status
    (app (exec (handleUploadAndStartChat
                  {| now := 0%N;
                     initialize := Throw (JsError "no key in the environment");
                     createRagStore := fun _ => Ok "stores/one";
                     uploadToRagStore := fun _ _ _ => Ok tt;
                     fileSearch := fun _ _ => Ok (mkQuery "ok" None);
                     deleteRagStore := fun _ => Ok tt |})
               (Sample.ready [Sample.a_pdf])))
  = Error.
Proof.
  destruct (start_initialization_failure
              {| now := 0%N;
                 initialize := Throw (JsError "no key in the environment");
                 createRagStore := fun _ => Ok "stores/one";
                 uploadToRagStore := fun _ _ _ => Ok tt;
                 fileSearch := fun _ _ => Ok (mkQuery "ok" None);
                 deleteRagStore := fun _ => Ok tt |}
              (Sample.ready [Sample.a_pdf])
              (JsError "no key in the environment")
              eq_refl ltac:(discriminate) eq_refl)
    as (_ & H & _).
  rewrite H. reflexivity.
Defined.

(** X20. When the creation of the store or an upload fails with an error that
    is not classified as a credential error, the start handler shows the
    error screen with [Failed to start chat session] and the message of
    the error, clears the progress and rethrows; the key flag, the
    selected files and the chat are kept. *)
Theorem start_generic_failure (svc : Service) (w : World) (e : JsValue) :
  isApiKeySelected (app w) = true ->
  files (app w) <> [] ->
  initialize svc = Ok tt ->
  indexing_failure svc (files (app w)) = Some e ->
  is_credential_error e = false ->
  outcome (handleUploadAndStartChat svc) w = Throw e
  /\ app (exec (handleUploadAndStartChat svc) w)
     = with_status Error
         (with_error (Some (error_text "Failed to start chat session" e))
            (with_uploadProgress None (with_apiKeyError None (app w)))).
Proof.
  intros Hkey Hfiles Hinit Hfail Hcred.
  destruct (start_cases svc w Hkey Hfiles)
    as [(e' & Hi & _) | [(e' & _ & Hf & Ho & E) | (st & pre & _ & _ & Hf & _)]];
    try congruence.
  rewrite Hfail in Hf. injection Hf as <-.
  split; [exact Ho|]. rewrite E. unfold index_failed, failed.
  now rewrite Hcred.
Qed.

Lemma start_generic_failure_witness :
  error
    (app (exec (handleUploadAndStartChat
                  (Sample.service_create_fails (JsError "quota exceeded")))
               (Sample.ready [Sample.a_pdf])))
  = Some "Failed to start chat session: quota exceeded".
Proof.
  destruct (start_generic_failure
              (Sample.service_create_fails (JsError "quota exceeded"))
              (Sample.ready [Sample.a_pdf]) (JsError "quota exceeded")
              eq_refl ltac:(discriminate) eq_refl eq_refl eq_refl)
    as (_ & H).
  rewrite H. reflexivity.
Defined.

(** ** The calls and the progress of a start *)

Lemma skipn_prefix {A} (a b : list A) :
  skipn (List.length a) (a ++ b)%list = b.
Proof. induction a as [|x a IH]; [reflexivity | exact IH]. Qed.

Lemma service_calls_app (a b : list Effect) :
  service_calls (a ++ b) = (service_calls a ++ service_calls b)%list.
Proof. apply filter_app. Qed.

Lemma progress_updates_app (a b : list Effect) :
  progress_updates (a ++ b)
  = (progress_updates a ++ progress_updates b)%list.
Proof.
  induction a as [|e a IH]; [reflexivity|].
  destruct e; cbn; now rewrite ?IH.
Qed.

(** The files handed to the service are the first files of the
    selection, and all of them when no upload fails. *)
Lemma uploads_tried_prefix (svc : Service) (store : string)
  (fs : list File) :
  forall i,
    (exists rest, fs = (uploads_tried svc store i fs ++ rest)%list)
    /\ (first_upload_failure svc store i fs = None ->
        uploads_tried svc store i fs = fs).
Proof.
  induction fs as [|f fs IH]; intros i; cbn.
  - split; [now exists [] | reflexivity].
  - destruct (uploadToRagStore svc i store f) as [[]|e].
    + destruct (IH (S i)) as [[rest Hrest] Hall]. split.
      * exists rest. now rewrite <- Hrest.
      * intros H. now rewrite (Hall H).
    + split; [now exists fs | discriminate].
Qed.

Lemma upload_loop_trace (svc : Service) (store : string) (n : nat)
  (fs : list File) :
  forall i w p0,
    uploadProgress (app w) = Some p0 ->
    exists p t qs,
      upload_loop svc store n i fs w
      = (match first_upload_failure svc store i fs with
         | Some e => Throw e
         | None => Ok tt
         end,
         {| app := with_uploadProgress (Some p) (app w);
            trace := (trace w ++ t)%list |})
      /\ total p = total p0
      /\ service_calls t
         = map (CallUploadToRagStore store) (uploads_tried svc store i fs)
      /\ progress_updates t = map Some qs
      /\ map current qs
         = seq (i + 1) (List.length (uploads_tried svc store i fs))
      /\ Forall (fun q => total q = total p0) qs.
Proof.
  induction fs as [|f rest IH]; intros i w p0 Hp.
  - exists p0, [], []. cbn. rewrite <- Hp, with_uploadProgress_same, app_nil_r.
    split; [now destruct w|]. repeat (split; [reflexivity|]). constructor.
  - pose (q := {| current := i + 1;
                  total := total p0;
                  message := Some "Reading document...";
                  fileName := Some ("(" ++ of_nat (i + 1) ++ "/" ++ of_nat n
                                    ++ ") " ++ name f) |}).
    cbn [upload_loop first_upload_failure uploads_tried]. plumbing.
    cbn -[append of_nat]. rewrite Hp. fold q.
    destruct (uploadToRagStore svc i store f) as [[]|e].
    + match goal with
      | |- context [upload_loop _ _ _ _ rest ?w1] =>
          destruct (IH (S i) w1 q eq_refl)
            as (p & t & qs & E & Htot & Hcalls & Hprog & Hcur & Hall);
          rewrite E
      end.
      exists p, (ProgressUpdate (Some q) :: CallUploadToRagStore store f :: t),
        (q :: qs).
      split; [|split; [|split; [|split; [|split]]]].
      * cbn. rewrite <- !app_assoc. reflexivity.
      * exact Htot.
      * unfold service_calls in *. cbn [filter is_service_call map].
        now rewrite Hcalls.
      * cbn [progress_updates map]. now rewrite Hprog.
      * cbn [List.length seq map]. rewrite Hcur. reflexivity.
      * constructor; [reflexivity | exact Hall].
    + exists q, [ProgressUpdate (Some q); CallUploadToRagStore store f], [q].
      split; [|split; [|split; [|split; [|split]]]]; try reflexivity.
      * cbn. rewrite <- !app_assoc. reflexivity.
      * repeat constructor.
Qed.

Lemma start_service_calls (svc : Service) (w : World) :
  isApiKeySelected (app w) = true ->
  files (app w) <> [] ->
  initialize svc = Ok tt ->
  service_calls (effects_of (handleUploadAndStartChat svc) w)
  = CallInitialize
    :: CallCreateRagStore (storeName svc)
    :: match createRagStore svc (storeName svc) with
       | Ok store =>
           map (CallUploadToRagStore store)
             (uploads_tried svc store 0 (files (app w)))
       | Throw _ => []
       end
  /\ (forall store,
        (exists rest,
            files (app w)
            = (uploads_tried svc store 0 (files (app w)) ++ rest)%list)
        /\ (first_upload_failure svc store 0 (files (app w)) = None ->
            uploads_tried svc store 0 (files (app w)) = files (app w))).
Proof.
  intros Hkey Hfiles Hinit.
  split; [| intros store; apply uploads_tried_prefix].
  unfold effects_of, handleUploadAndStartChat, handleError. plumbing.
  cbn -[storeName append skipn].
  rewrite Hkey, (length_nonzero _ Hfiles), Hinit. cbn -[storeName append skipn].
  destruct (createRagStore svc (storeName svc)) as [store|e].
  - match goal with
    | |- context [upload_loop svc store ?n 0 ?fs ?w1] =>
        destruct (upload_loop_trace svc store n fs 0 w1 _ eq_refl)
          as (p & t & qs & E & _ & Hcalls & _);
        rewrite E
    end.
    destruct (first_upload_failure svc store 0 (files (app w)));
      [destruct (is_credential_error j)|];
      cbn -[storeName append skipn];
      rewrite <- !app_assoc, skipn_prefix;
      rewrite !service_calls_app, Hcalls; cbn -[storeName];
      now rewrite ?app_nil_r.
  - destruct (is_credential_error e); cbn -[storeName append skipn];
      rewrite <- !app_assoc, skipn_prefix; reflexivity.
Qed.

(** X21. The calls of a start that gets past the initialization, in their
    order: the initialization, the creation of the store under a name
    made of [chat-session-] and the time, and, when the store is
    created, one upload into that store for each selected file, in the
    order of the selection, up to the first upload that fails.  Nothing
    is deleted and nothing is queried. *)
Theorem start_calls_in_order (svc : Service) (w : World) :
  isApiKeySelected (app w) = true ->
  files (app w) <> [] ->
  initialize svc = Ok tt ->
  service_calls (effects_of (handleUploadAndStartChat svc) w)
  = CallInitialize
    :: CallCreateRagStore (storeName svc)
    :: match createRagStore svc (storeName svc) with
       | Ok store =>
           map (CallUploadToRagStore store)
             (uploads_tried svc store 0 (files (app w)))
       | Throw _ => []
       end
  /\ (forall store,
        (exists rest,
            files (app w)
            = (uploads_tried svc store 0 (files (app w)) ++ rest)%list)
        /\ (first_upload_failure svc store 0 (files (app w)) = None ->
            uploads_tried svc store 0 (files (app w)) = files (app w))).
Proof. exact (start_service_calls svc w). Qed.

Lemma start_calls_in_order_witness :
  service_calls
    (effects_of (handleUploadAndStartChat (Sample.service "stores/one"))
                (Sample.ready [Sample.a_pdf; Sample.b_pdf]))
  = [CallInitialize;
     CallCreateRagStore "chat-session-1700000000000";
     CallUploadToRagStore "stores/one" Sample.a_pdf;
     CallUploadToRagStore "stores/one" Sample.b_pdf].
Proof.
  exact (proj1 (start_calls_in_order (Sample.service "stores/one")
                  (Sample.ready [Sample.a_pdf; Sample.b_pdf])
                  eq_refl ltac:(discriminate) eq_refl)).
Defined.

Lemma start_extends (svc : Service) (w : World) :
  isApiKeySelected (app w) = true ->
  files (app w) <> [] ->
  initialize svc = Ok tt ->
  trace (exec (handleUploadAndStartChat svc) w)
  = (trace w ++ effects_of (handleUploadAndStartChat svc) w)%list.
Proof.
  intros Hkey Hfiles Hinit.
  unfold effects_of, handleUploadAndStartChat, handleError. plumbing.
  cbn -[storeName append skipn].
  rewrite Hkey, (length_nonzero _ Hfiles), Hinit. cbn -[storeName append skipn].
  destruct (createRagStore svc (storeName svc)) as [store|e].
  - match goal with
    | |- context [upload_loop svc store ?n 0 ?fs ?w1] =>
        destruct (upload_loop_trace svc store n fs 0 w1 _ eq_refl)
          as (p & t & qs & E & _);
        rewrite E
    end.
    destruct (first_upload_failure svc store 0 (files (app w)));
      [destruct (is_credential_error j)|];
      cbn -[storeName append skipn];
      rewrite <- !app_assoc, skipn_prefix; reflexivity.
  - destruct (is_credential_error e); cbn -[storeName append skipn];
      rewrite <- !app_assoc, skipn_prefix; reflexivity.
Qed.

Lemma seq_bound (a len x : nat) : In x (seq a len) -> x < a + len.
Proof. intros H. apply in_seq in H. lia. Qed.

Lemma tried_length (svc : Service) (store : string) (fs : list File) (i : nat) :
  List.length (uploads_tried svc store i fs) <= List.length fs.
Proof.
  destruct (uploads_tried_prefix svc store fs i) as [[rest H] _].
  rewrite H at 2. rewrite length_app. lia.
Qed.

(** X22. The progress a start shows once it is past the initialization: each
    value has [total] equal to the number of files plus one and [current]
    at most [total], and the last update clears the progress.  When the
    start succeeds, [current] runs through 0, 1, then 1 to [n] for the
    files, then [n + 1]. *)
Theorem start_progress_steps (svc : Service) (w : World) :
  isApiKeySelected (app w) = true ->
  files (app w) <> [] ->
  initialize svc = Ok tt ->
  exists ps,
    progress_updates (effects_of (handleUploadAndStartChat svc) w)
    = (map Some ps ++ [None])%list
    /\ Forall (fun q => total q = List.length (files (app w)) + 1
                        /\ current q <= total q) ps
    /\ (indexing_failure svc (files (app w)) = None ->
        map current ps
        = (0 :: 1 :: seq 1 (List.length (files (app w)))
             ++ [List.length (files (app w)) + 1])%list).
Proof.
  intros Hkey Hfiles Hinit.
  unfold effects_of, indexing_failure, handleUploadAndStartChat, handleError.
  plumbing. cbn -[storeName append skipn].
  rewrite Hkey, (length_nonzero _ Hfiles), Hinit. cbn -[storeName append skipn].
  set (n := List.length (files (app w))).
  destruct (createRagStore svc (storeName svc)) as [store|e].
  - match goal with
    | |- context [upload_loop svc store ?k 0 ?fs ?w1] =>
        destruct (upload_loop_trace svc store k fs 0 w1 _ eq_refl)
          as (p & t & qs & E & _ & _ & Hprog & Hcur & Hall);
        rewrite E
    end.
    cbn [total] in Hall.
    assert (Hqs : Forall (fun q => total q = n + 1 /\ current q <= total q) qs).
    { apply Forall_forall. intros q Hq.
      pose proof (proj1 (Forall_forall _ _) Hall q Hq) as Ht.
      split; [exact Ht|]. rewrite Ht.
      assert (Hin : In (current q) (map current qs)) by now apply in_map.
      rewrite Hcur in Hin. apply seq_bound in Hin.
      pose proof (tried_length svc store (files (app w)) 0). fold n in H. lia. }
    destruct (first_upload_failure svc store 0 (files (app w))) as [e|] eqn:Hf.
    + exists ({| current := 0; total := n + 1;
                message := Some "Creating index..."; fileName := None |}
              :: {| current := 1; total := n + 1;
                    message := Some "Processing..."; fileName := None |}
              :: qs).
      split; [|split; [|discriminate]].
      * destruct (is_credential_error e); cbn -[storeName append skipn];
          rewrite <- !app_assoc, skipn_prefix;
          cbn [progress_updates app]; rewrite !progress_updates_app, Hprog;
          cbn; now rewrite ?app_nil_r.
      * constructor; [cbn; split; [reflexivity | lia]|].
        constructor; [cbn; split; [reflexivity | lia]|]. exact Hqs.
    + exists ({| current := 0; total := n + 1;
                message := Some "Creating index..."; fileName := None |}
              :: {| current := 1; total := n + 1;
                    message := Some "Processing..."; fileName := None |}
              :: qs ++ [ready_progress n])%list.
      split; [|split].
      * cbn -[storeName append skipn].
        rewrite <- !app_assoc, skipn_prefix.
        cbn [progress_updates app]. rewrite !progress_updates_app, Hprog.
        cbn. rewrite !map_app. cbn. now rewrite <- !app_assoc.
      * constructor; [cbn; split; [reflexivity | lia]|].
        constructor; [cbn; split; [reflexivity | lia]|].
        apply Forall_app. split; [exact Hqs|].
        constructor; [cbn; split; [reflexivity | lia] | constructor].
      * intros _. cbn [map]. rewrite map_app, Hcur.
        rewrite (proj2 (uploads_tried_prefix svc store (files (app w)) 0) Hf).
        reflexivity.
  - exists [{| current := 0; total := n + 1;
               message := Some "Creating index..."; fileName := None |}].
    split; [|split; [|discriminate]].
    + destruct (is_credential_error e); cbn -[storeName append skipn];
        rewrite <- !app_assoc, skipn_prefix; reflexivity.
    + constructor; [cbn; split; [reflexivity | lia] | constructor].
Qed.

Lemma start_progress_steps_witness :
  exists ps,
    progress_updates
      (effects_of (handleUploadAndStartChat (Sample.service "stores/one"))
                  (Sample.ready [Sample.a_pdf; Sample.b_pdf]))
    = (map Some ps ++ [None])%list
    /\ map current ps = [0; 1; 1; 2; 3].
Proof.
  destruct (start_progress_steps (Sample.service "stores/one")
              (Sample.ready [Sample.a_pdf; Sample.b_pdf])
              eq_refl ltac:(discriminate) eq_refl)
    as (ps & Hp & _ & Hc).
  exists ps. split; [exact Hp | exact (Hc eq_refl)].
Defined.

(** ** A chat from start to end *)

Lemma deletions_service_calls (store : string) (t : list Effect) :
  deletions store t = deletions store (service_calls t).
Proof.
  unfold deletions, service_calls. f_equal.
  induction t as [|e t IH]; [reflexivity|].
  destruct e; cbn; rewrite ?IH; reflexivity.
Qed.

Lemma deletions_uploads (store s : string) (fs : list File) :
  deletions store (map (CallUploadToRagStore s) fs) = 0.
Proof. unfold deletions. now induction fs. Qed.

Lemma start_deletes_nothing (svc : Service) (w : World) (store : string) :
  isApiKeySelected (app w) = true ->
  files (app w) <> [] ->
  initialize svc = Ok tt ->
  deletions store (trace (exec (handleUploadAndStartChat svc) w))
  = deletions store (trace w).
Proof.
  intros Hkey Hfiles Hinit.
  rewrite (start_extends svc w Hkey Hfiles Hinit), deletions_app.
  rewrite (deletions_service_calls store
             (effects_of (handleUploadAndStartChat svc) w)).
  rewrite (proj1 (start_service_calls svc w Hkey Hfiles Hinit)).
  destruct (createRagStore svc (storeName svc)) as [s|e].
  - change (deletions store (CallInitialize :: CallCreateRagStore (storeName svc)
                               :: map (CallUploadToRagStore s)
                                    (uploads_tried svc s 0 (files (app w)))))
      with (deletions store (map (CallUploadToRagStore s)
                               (uploads_tried svc s 0 (files (app w))))).
    rewrite deletions_uploads. lia.
  - cbn. lia.
Qed.

Lemma confirm_exec_ok (m : M unit) (w : World) :
  outcome m w = Ok tt -> exec (handleConfirmUpload m) w = exec m w.
Proof.
  unfold handleConfirmUpload. plumbing.
  destruct (m w) as [[[]|e] w']; cbn; [reflexivity | discriminate].
Qed.

(** X23. From the welcome screen, a start that succeeds on a store with a name
    that is not empty, followed by the new-chat button, asks for the
    deletion of that store exactly once, whatever the deletion answers,
    and ends on the welcome screen with no store, no files and an empty
    history: the chat leaves nothing behind. *)
Theorem chat_then_new_chat (svc svc' : Service) (store : string) (w : World) :
  status (app w) = Welcome ->
  isApiKeySelected (app w) = true ->
  files (app w) <> [] ->
  initialize svc = Ok tt ->
  createRagStore svc (storeName svc) = Ok store ->
  store <> EmptyString ->
  first_upload_failure svc store 0 (files (app w)) = None ->
  deletions store (trace (run [StartChat svc; NewChat svc'] w))
  = deletions store (trace w) + 1
  /\ status (app (run [StartChat svc; NewChat svc'] w)) = Welcome
  /\ activeRagStoreName (app (run [StartChat svc; NewChat svc'] w)) = None
  /\ ragStoreNameRef (app (run [StartChat svc; NewChat svc'] w)) = None
  /\ files (app (run [StartChat svc; NewChat svc'] w)) = []
  /\ chatHistory (app (run [StartChat svc; NewChat svc'] w)) = [].
Proof.
  intros Hst Hkey Hfiles Hinit Hcreate Hne Hup.
  destruct (start_succeeds svc w Hkey Hfiles store Hinit Hcreate Hup)
    as [pre E].
  assert (Hok : outcome (handleUploadAndStartChat svc) w = Ok tt)
    by (unfold outcome; now rewrite E).
  assert (Happ : app (exec (handleUploadAndStartChat svc) w)
                 = started (files (app w)) store (app w))
    by (unfold exec; now rewrite E).
  pose proof (start_deletes_nothing svc w store Hkey Hfiles Hinit) as Hdel.
  cbn [run fold_left].
  assert (D1 : dispatch w (StartChat svc)
               = sync_ref (exec (handleUploadAndStartChat svc) w)).
  { unfold dispatch. cbn [offered handler].
    rewrite Hst, Hkey, (length_nonzero _ Hfiles). cbn.
    now rewrite (confirm_exec_ok _ w Hok). }
  rewrite D1.
  set (w1 := sync_ref (exec (handleUploadAndStartChat svc) w)).
  assert (Hw1 : app w1
                = with_ragStoreNameRef (Some store)
                    (started (files (app w)) store (app w)))
    by (unfold w1, sync_ref; cbn [app]; now rewrite Happ).
  assert (Hname : activeRagStoreName (app w1) = Some store)
    by now rewrite Hw1.
  assert (D2 : dispatch w1 (NewChat svc')
               = sync_ref (exec (handleEndChat svc') w1)).
  { unfold dispatch. cbn [offered handler]. now rewrite Hw1. }
  rewrite D2.
  destruct (end_chat_deletes_once svc' store w1 Hname Hne) as [Hd _].
  destruct (end_chat_app svc' w1) as [_ Hreset].
  unfold sync_ref. cbn [app trace]. rewrite Hreset.
  split; [|repeat split].
  rewrite Hd. unfold w1, sync_ref. cbn [trace]. now rewrite Hdel.
Qed.

Lemma chat_then_new_chat_witness :
  deletions "stores/one"
    (trace (run [StartChat (Sample.service "stores/one");
                 NewChat (Sample.service "stores/one")]
              (Sample.ready [Sample.a_pdf])))
  = 1.
Proof.
  destruct (chat_then_new_chat (Sample.service "stores/one")
              (Sample.service "stores/one") "stores/one"
              (Sample.ready [Sample.a_pdf])
              eq_refl eq_refl ltac:(discriminate) eq_refl eq_refl
              ltac:(discriminate) eq_refl) as [H _].
  exact H.
Defined.

(** ** The classification of an error *)

Lemma toLowerCase_append (a b : string) :
  toLowerCase (a ++ b) = toLowerCase a ++ toLowerCase b.
Proof. induction a as [|c a IH]; cbn; [reflexivity | now rewrite IH]. Qed.

Lemma prefix_of_append (a b : string) : String.prefix a (a ++ b) = true.
Proof.
  induction a as [|x a IH]; cbn; [now destruct b|].
  destruct (ascii_dec x x) as [_|N]; [exact IH | now elim N].
Qed.

Lemma includes_middle (a b c : string) : includes (a ++ b ++ c) b = true.
Proof.
  induction a as [|x a IH].
  - cbn [append]. destruct (b ++ c) eqn:E; cbn [includes];
      rewrite <- E, prefix_of_append; reflexivity.
  - cbn [append includes]. rewrite IH. apply orb_true_r.
Qed.

(** X24. An error is classified as a credential error when its message (for a
    thrown value that is not an [Error], its string form) holds one of
    the two phrases anywhere, in whatever mix of upper and lower case. *)
Theorem credential_phrase_anywhere (pre phrase post : string) :
  toLowerCase phrase = "api key not valid"
  \/ toLowerCase phrase = "requested entity was not found" ->
  is_credential_error (JsError (pre ++ phrase ++ post)) = true
  /\ forall truthy,
       is_credential_error (JsOther truthy (pre ++ phrase ++ post)) = true.
Proof.
  intros H.
  assert (E : includes (toLowerCase (pre ++ phrase ++ post))
                "api key not valid"
              || includes (toLowerCase (pre ++ phrase ++ post))
                   "requested entity was not found" = true).
  { rewrite !toLowerCase_append. destruct H as [-> | ->].
    - now rewrite includes_middle.
    - rewrite includes_middle. apply orb_true_r. }
  split; [exact E | intros truthy; exact E].
Qed.

Lemma credential_phrase_anywhere_witness :
  is_credential_error
    (JsError "[400] API Key Not Valid. Please pass a valid API key.")
  = true.
Proof.
  exact (proj1 (credential_phrase_anywhere "[400] " "API Key Not Valid"
                  ". Please pass a valid API key." (or_introl eq_refl))).
Defined.

(** ** The selection of files *)

(** X25. Removing the file at a position of the selection takes out that file
    and keeps the others in their order; a position past the end removes
    nothing. *)
Theorem remove_file_at_position :
  (forall (before : list File) (f : File) (after : list File),
      remove_at (List.length before) (before ++ f :: after)
      = (before ++ after)%list)
  /\ (forall (i : nat) (fs : list File),
        List.length fs <= i -> remove_at i fs = fs).
Proof.
  split.
  - intros before f after. induction before as [|x before IH];
      [reflexivity|].
    cbn. now rewrite IH.
  - intros i fs. revert i. induction fs as [|x fs IH]; intros i H;
      [now destruct i|].
    destruct i as [|i]; cbn in *; [lia|]. rewrite IH by lia. reflexivity.
Qed.

Lemma remove_file_at_position_witness :
  remove_at 1 [Sample.a_pdf; Sample.b_pdf; Sample.c_pdf]
  = [Sample.a_pdf; Sample.c_pdf]
  /\ remove_at 3 [Sample.a_pdf; Sample.b_pdf; Sample.c_pdf]
     = [Sample.a_pdf; Sample.b_pdf; Sample.c_pdf].
Proof.
  split.
  - exact (proj1 remove_file_at_position [Sample.a_pdf] Sample.b_pdf
             [Sample.c_pdf]).
  - apply (proj2 remove_file_at_position 3). cbn. lia.
Defined.

(** ** The sources under an answer *)

Lemma source_buttons_spec (chunks : list GroundingChunk) :
  forall i k t,
    In (k, t) (source_buttons i chunks)
    <-> exists j chunk,
          nth_error chunks j = Some chunk /\ k = i + j + 1
          /\ retrievedText chunk = Some t /\ t <> EmptyString.
Proof.
  induction chunks as [|chunk rest IH]; intros i k t.
  - cbn. split; [tauto|]. intros (j & c & H & _). now destruct j.
  - cbn [source_buttons]. split.
    + intros H.
      assert (Hrest : In (k, t) (source_buttons (S i) rest) ->
                      exists j c, nth_error (chunk :: rest) j = Some c
                                  /\ k = i + j + 1
                                  /\ retrievedText c = Some t
                                  /\ t <> EmptyString).
      { intros Hin. apply IH in Hin as (j & c & Hn & Hk & Ht & Hne).
        exists (S j), c. repeat split; try assumption. lia. }
      destruct (retrievedText chunk) as [[|c0 s0]|] eqn:Et; auto.
      destruct H as [H|H]; [|auto].
      injection H as <- <-. exists 0, chunk.
      repeat split; [lia | exact Et | discriminate].
    + intros (j & c & Hn & Hk & Ht & Hne).
      destruct j as [|j].
      * cbn in Hn. injection Hn as ->. rewrite Ht.
        destruct t as [|c0 s0]; [congruence|]. left. f_equal. lia.
      * cbn in Hn.
        assert (Hin : In (k, t) (source_buttons (S i) rest)).
        { apply IH. exists j, c. repeat split; try assumption. lia. }
        destruct (retrievedText chunk) as [[|c0 s0]|]; auto. now right.
Qed.

(** X26. The source buttons of a message: a turn of the user has none; a turn
    of the model has the button [Source k] with text [t] exactly when its
    chunk at position [k - 1] has the text [t] and [t] is not empty.  The
    numbers are the positions of the chunks, so they keep their gaps. *)
Theorem sources_follow_chunks (m : ChatMessage) (k : nat) (t : string) :
  In (k, t) (message_sources m)
  <-> role m = model
      /\ exists chunks j chunk,
           groundingChunks m = Some chunks
           /\ nth_error chunks j = Some chunk /\ k = j + 1
           /\ retrievedText chunk = Some t /\ t <> EmptyString.
Proof.
  unfold message_sources. split.
  - intros H. destruct (role m); [contradiction|].
    destruct (groundingChunks m) as [[|chunk rest]|]; try contradiction.
    apply source_buttons_spec in H as (j & c & Hn & Hk & Ht & Hne).
    split; [reflexivity|]. exists (chunk :: rest), j, c. now repeat split.
  - intros (Hrole & chunks & j & c & Hg & Hn & Hk & Ht & Hne).
    rewrite Hrole, Hg. destruct chunks as [|chunk rest]; [now destruct j|].
    apply source_buttons_spec. exists j, c. now repeat split.
Qed.

Lemma sources_follow_chunks_witness :
  message_sources
    (mkMessage model ["See the manual."]
       (Some [mkChunk (Some "page 3"); mkChunk None;
              mkChunk (Some EmptyString); mkChunk (Some "page 9")]))
  = [(1, "page 3"); (4, "page 9")]
  /\ In (4, "page 9")
       (message_sources
          (mkMessage model ["See the manual."]
             (Some [mkChunk (Some "page 3"); mkChunk None;
                    mkChunk (Some EmptyString); mkChunk (Some "page 9")]))).
Proof.
  split; [reflexivity|].
  apply (proj2 (sources_follow_chunks _ 4 "page 9")).
  split; [reflexivity|].
  exists [mkChunk (Some "page 3"); mkChunk None;
          mkChunk (Some EmptyString); mkChunk (Some "page 9")],
    3, (mkChunk (Some "page 9")).
  repeat split. discriminate.
Defined.

(** ** What holds between two events *)

(** Closes a goal [Invariant s'] where [s'] is built from the fields of a
    state [s] that has the invariant. *)
Ltac inv_close Hinv :=
  destruct Hinv as [H1 H2 H3 H4 H5 H6 H7];
  cbn in *; subst;
  constructor; cbn;
  try solve [ auto
            | intuition (try discriminate; try congruence) ].

Lemma checkApiKey_app (host : Host) (w : World) :
  exists b, app (exec (checkApiKey host) w)
            = with_isApiKeySelected b (app w).
Proof.
  unfold checkApiKey.
  destruct (hasSelectedApiKey host) as [[b|e]|]; plumbing; cbn.
  - now exists b.
  - now exists false.
  - exists (isApiKeySelected (app w)). now destruct (app w).
Qed.

Lemma offered_status (s : AppState) (x : AppStatus) :
  AppStatus_eqb (status s) x = true -> status s = x.
Proof. destruct (status s), x; cbn; congruence. Qed.

Lemma dispatch_keeps_invariant (w : World) (ev : Event) :
  Invariant (app w) -> Invariant (app (dispatch w ev)).
Proof.
  intros Hinv. unfold dispatch.
  destruct (offered (app w) ev) eqn:Hoff; [|exact Hinv].
  unfold sync_ref. cbn [app].
  destruct ev; cbn [handler offered] in *.
  - (* Focus *)
    destruct (checkApiKey_app host w) as [b ->].
    destruct (app w). inv_close Hinv.
  - (* SelectKey *)
    unfold handleSelectKey.
    destruct (openSelectKey host) as [[[]|e]|].
    + assert (E : app (exec (try_catch (checkApiKey host)
                               (fun _ => console_error
                                  "Failed to open API key selection dialog")) w)
                  = app (exec (checkApiKey host) w)).
      { unfold checkApiKey.
        destruct (hasSelectedApiKey host) as [[b|e]|]; plumbing; reflexivity. }
      rewrite E. destruct (checkApiKey_app host w) as [b ->].
      destruct (app w). inv_close Hinv.
    + plumbing. cbn. destruct (app w). inv_close Hinv.
    + plumbing. cbn. destruct (app w). inv_close Hinv.
  - (* AddFiles *)
    apply offered_status in Hoff. plumbing. cbn.
    destruct (app w). inv_close Hinv.
  - (* RemoveFile *)
    apply offered_status in Hoff. plumbing. cbn.
    destruct (app w). inv_close Hinv.
  - (* ClearFiles *)
    apply offered_status in Hoff. plumbing. cbn.
    destruct (app w). inv_close Hinv.
  - (* StartChat *)
    destruct (offered_StartChat svc (app w) Hoff) as (Hst & Hfiles & Hkey).
    rewrite confirm_app.
    destruct (start_cases svc w Hkey Hfiles)
      as [(e & _ & _ & E) | [(e & _ & _ & _ & E)
                            | (store & pre & _ & _ & _ & E)]].
    + rewrite E. unfold failed. destruct (app w). inv_close Hinv.
    + rewrite E. unfold index_failed, failed.
      destruct (is_credential_error e); destruct (app w); inv_close Hinv.
    + unfold exec. rewrite E. cbn [snd app]. unfold started.
      destruct (app w). inv_close Hinv.
  - (* SendMessage *)
    apply andb_prop in Hoff as [Hoff _]. apply andb_prop in Hoff as [Hst _].
    apply offered_status in Hst.
    unfold handleSendMessage, handleError. plumbing. cbn.
    destruct (activeRagStoreName (app w)) as [[|c store]|] eqn:Hname; cbn.
    + destruct (app w). inv_close Hinv.
    + destruct (fileSearch svc (String c store) msg); cbn;
        destruct (app w); inv_close Hinv.
    + destruct (app w). inv_close Hinv.
  - (* NewChat *)
    apply offered_status in Hoff.
    rewrite (proj2 (end_chat_app svc w)).
    destruct (app w). inv_close Hinv.
  - (* TryAgain *)
    apply offered_status in Hoff. unfold clearError. plumbing. cbn.
    destruct (app w). inv_close Hinv.
  - (* Unload *)
    assert (E : app (exec (handleUnload svc) w) = app w).
    { unfold handleUnload. plumbing. cbn.
      destruct (ragStoreNameRef (app w)) as [[|c store]|]; cbn;
        try reflexivity.
      destruct (deleteRagStore svc (String c store)) as [[]|e]; reflexivity. }
    rewrite E. destruct (app w). inv_close Hinv.
Qed.

(** X27. In every state of a sequential session (each handler through
    before the next event is taken) between two events: the screen is
    the welcome, the chat or the error screen; no progress is shown and
    no query is loading; the ref holds the active store name; an error
    message is recorded exactly on the error screen; and on the chat
    screen no file is selected and a store name is set.  An event that
    arrives while a handler waits for the service (new chat during a
    query, focus during a start) is outside these sessions. *)
Theorem session_invariant (w : World) :
  reachable w -> Invariant (app w).
Proof.
  intros (host & evs & ->).
  assert (H0 : Invariant (app (mount host))).
  { unfold mount, checkApiKey.
    destruct (hasSelectedApiKey host) as [[b|e]|]; plumbing; cbn;
      constructor; cbn; intuition (try discriminate; try congruence). }
  revert H0. generalize (mount host). induction evs as [|ev evs IH];
    intros w H; [exact H|].
  cbn [run fold_left]. apply IH. now apply dispatch_keeps_invariant.
Qed.

Lemma session_invariant_witness :
  files (app Sample.chatting) = []
  /\ ragStoreNameRef (app Sample.chatting) = Some "stores/one".
Proof.
  assert (R : reachable Sample.chatting).
  { exists Sample.host_with_key,
      [AddFiles [Sample.a_pdf]; StartChat (Sample.service "stores/one")].
    reflexivity. }
  pose proof (session_invariant Sample.chatting R) as H.
  split.
  - exact (inv_chat_files _ H eq_refl).
  - rewrite (inv_ref _ H). reflexivity.
Defined.

(** ** A failed query and the store *)

(** X28. In a chat over a store, a query that fails and the acknowledgement of
    the error lead to the welcome screen with the store name still set,
    its deletion not requested; closing the page then requests the
    deletion once. *)
Theorem failed_query_keeps_store_until_unload
  (svc svc' : Service) (msg store : string) (e : JsValue) (w : World) :
  status (app w) = Chatting ->
  isQueryLoading (app w) = false ->
  is_blank msg = false ->
  activeRagStoreName (app w) = Some store ->
  store <> EmptyString ->
  fileSearch svc store msg = Throw e ->
  status (app (run [SendMessage svc msg; TryAgain] w)) = Welcome
  /\ activeRagStoreName (app (run [SendMessage svc msg; TryAgain] w))
     = Some store
  /\ deletions store (trace (run [SendMessage svc msg; TryAgain] w))
     = deletions store (trace w)
  /\ deletions store
       (trace (run [SendMessage svc msg; TryAgain; Unload svc'] w))
     = deletions store (trace w) + 1.
Proof.
  intros Hst Hload Hmsg Hname Hne Hq.
  destruct store as [|c store]; [congruence|].
  assert (D : run [SendMessage svc msg; TryAgain] w
              = {| app := with_ragStoreNameRef (Some (String c store))
                            (with_status Welcome
                               (with_error None
                                  (with_isQueryLoading false
                                     (with_chatHistory
                                        (chatHistory (app w)
                                         ++ [mkMessage user [msg] None;
                                             mkMessage model [apology] None])
                                        (app w)))));
                   trace := (trace w
                             ++ [CallFileSearch (String c store) msg;
                                 ConsoleError "Failed to get response";
                                 StatusChange Error;
                                 StatusChange Welcome])%list |}).
  { cbn [run fold_left]. unfold dispatch at 2. cbn [offered handler].
    rewrite Hst, Hload, Hmsg. cbn [AppStatus_eqb negb andb].
    unfold handleSendMessage, handleError, sync_ref. plumbing.
    cbn. rewrite Hname, Hq. cbn.
    unfold dispatch, clearError, sync_ref. plumbing. cbn.
    rewrite <- !app_assoc, !Hname. destruct (app w). reflexivity. }
  split; [|split; [|split]].
  - now rewrite D.
  - now rewrite D.
  - rewrite D. cbn [trace]. rewrite deletions_app. cbn. lia.
  - change [SendMessage svc msg; TryAgain; Unload svc']
      with ([SendMessage svc msg; TryAgain] ++ [Unload svc'])%list.
    unfold run in *. rewrite fold_left_app, D.
    cbn [fold_left]. unfold dispatch, sync_ref. cbn [offered handler app].
    match goal with
    | |- context [exec (handleUnload svc') ?w1] =>
        pose proof (unload_deletes_once svc' (String c store) w1 eq_refl
                      ltac:(discriminate)) as Hu
    end.
    cbn [trace]. rewrite Hu. cbn [trace]. rewrite deletions_app. cbn. lia.
Qed.

Lemma failed_query_keeps_store_until_unload_witness :
  deletions "stores/one"
    (trace (run [SendMessage (Sample.service_query_fails "stores/one") "hello";
                 TryAgain;
                 Unload (Sample.service "stores/one")]
              Sample.chatting))
  = 1.
Proof.
  destruct (failed_query_keeps_store_until_unload
              (Sample.service_query_fails "stores/one")
              (Sample.service "stores/one") "hello" "stores/one"
              (JsError "503 Service Unavailable") Sample.chatting
              eq_refl eq_refl eq_refl eq_refl ltac:(discriminate) eq_refl)
    as (_ & _ & _ & H).
  exact H.
Defined.

End AppMore.
